(** * QSL card service (index.js): collection store, validator, aggregator

    A shallow embedding of the cloud function's core: [readFromCos],
    [writeToCos], [validateCardData], [getStats], [getChartData],
    [saveCard] and [deleteCard].

    Conventions of the embedding.
    - JavaScript values are the values JSON can carry ([value]); a property
      read that finds nothing is [None] (JavaScript's [undefined]).
      Numbers are the integral ones, as [Z].  Objects are finite maps from
      property names to values.
    - Strings are sequences of 8-bit code units; white space and letter case
      are those of that range (the case maps act on the ASCII letters).
    - The object store, the log of the requests that reached it and the
      faults it is about to answer with form the [World]; the service's
      [async] functions are state-and-exception computations over it.
    - What the host supplies and the source only calls ([JSON.parse],
      [JSON.stringify], [Date.parse], the local time zone, the deployment's
      [CONFIG]) is a section variable; the values drawn from the environment
      during a call ([uuidv4()], [new Date()], [Math.random()]) are explicit
      arguments, in the order the source draws them. *)

From Stdlib Require Import ZArith Lia Ascii.
From stdpp Require Import base strings gmap list pretty.

Set Warnings "-register-all".
Set Default Proof Using "Type".
Local Open Scope Z_scope.

(** ** Strings *)

Module JsString.

(** WhiteSpace and LineTerminator code units below 256:
    TAB, LF, VT, FF, CR, SP and NBSP. *)
Definition is_white_space (c : ascii) : bool :=
  let n := nat_of_ascii c in
  bool_decide (n ∈ [9; 10; 11; 12; 13; 32; 160]%nat).

Fixpoint trimStart (s : string) : string :=
  match s with
  | EmptyString => EmptyString
  | String c s' => if is_white_space c then trimStart s' else s
  end.

Definition trimEnd (s : string) : string :=
  String.rev (trimStart (String.rev s)).

(** [String.prototype.trim] *)
Definition trim (s : string) : string := trimEnd (trimStart s).

Definition upper_char (c : ascii) : ascii :=
  let n := nat_of_ascii c in
  if bool_decide (97 ≤ n ≤ 122)%nat then ascii_of_nat (n - 32) else c.

Definition lower_char (c : ascii) : ascii :=
  let n := nat_of_ascii c in
  if bool_decide (65 ≤ n ≤ 90)%nat then ascii_of_nat (n + 32) else c.

Fixpoint map_chars (f : ascii → ascii) (s : string) : string :=
  match s with
  | EmptyString => EmptyString
  | String c s' => String (f c) (map_chars f s')
  end.

Definition toUpperCase : string → string := map_chars upper_char.
Definition toLowerCase : string → string := map_chars lower_char.

(** [s.substring(0, n)] *)
Definition prefix (n : nat) (s : string) : string := String.substring 0 n s.

Definition is_digit (c : ascii) : bool :=
  let n := nat_of_ascii c in bool_decide (48 ≤ n ≤ 57)%nat.

Fixpoint chars (s : string) : list ascii :=
  match s with
  | EmptyString => []
  | String c s' => c :: chars s'
  end.

(** [l.join(sep)] on an array of strings *)
Fixpoint join (sep : string) (l : list string) : string :=
  match l with
  | [] => ""
  | [x] => x
  | x :: l' => x +:+ sep +:+ join sep l'
  end.

(** [String(n).padStart(2, '0')] on an already rendered number *)
Definition padStart2 (s : string) : string :=
  match s with
  | EmptyString => "00"
  | String c EmptyString => String "0" s
  | _ => s
  end.

(** [padStart(w, '0')] for the widths of [toISOString] *)
Definition padStart (w : nat) (s : string) : string :=
  String.string_of_list_ascii (replicate (w - String.length s) "0"%char) +:+ s.


End JsString.

(** ** Values *)

Inductive value :=
| JNull
| JBool (b : bool)
| JNum (n : Z)
| JStr (s : string)
| JArr (l : list value)
| JObj (o : gmap string value).

(** A record: a JavaScript object used as an open map. *)
Abbreviation record := (gmap string value).

(** [Boolean(v)]; [None] is [undefined]. *)
Definition truthy (v : option value) : bool :=
  match v with
  | None | Some JNull => false
  | Some (JBool b) => b
  | Some (JNum n) => negb (n =? 0)
  | Some (JStr s) => negb (bool_decide (s = ""))
  | Some (JArr _) | Some (JObj _) => true
  end.

(** [a === b].  Primitives compare by value.  Two objects (or arrays) are
    equal only when they are the same object, and in this service the two
    sides of every comparison come from different documents (the stored blob
    on one side, the request or a literal on the other), so they never are. *)
Definition strict_eq (a b : option value) : bool :=
  match a, b with
  | None, None => true
  | Some JNull, Some JNull => true
  | Some (JBool x), Some (JBool y) => bool_decide (x = y)
  | Some (JNum x), Some (JNum y) => x =? y
  | Some (JStr x), Some (JStr y) => bool_decide (x = y)
  | _, _ => false
  end.

(** [l.includes(v)] for an array literal of strings *)
Definition includes (l : list string) (v : option value) : bool :=
  existsb (λ s, strict_eq (Some (JStr s)) v) l.

(** [String(v)] *)
Fixpoint toStringJS (v : value) : string :=
  match v with
  | JNull => "null"
  | JBool true => "true"
  | JBool false => "false"
  | JNum n => pretty n
  | JStr s => s
  | JArr l =>
      JsString.join ","
        (map (λ x, match x with JNull => "" | _ => toStringJS x end) l)
  | JObj _ => "[object Object]"
  end.

Definition toStringOpt (v : option value) : string :=
  match v with
  | None => "undefined"
  | Some x => toStringJS x
  end.

(** Own enumerable properties, as the spread [...v] into an object literal
    copies them: an object's own, the indexed elements of an array or of a
    string, nothing for the other primitives. *)
Definition indexed (l : list value) : record :=
  list_to_map (imap (λ i x, (pretty i, x)) l).

Definition own_props (v : option value) : record :=
  match v with
  | Some (JObj o) => o
  | Some (JArr l) => indexed l
  | Some (JStr s) => indexed ((λ c, JStr (String c "")) <$> JsString.chars s)
  | _ => ∅
  end.

(** ** Exceptions and results *)

Inductive exn :=
| QslError (message : string) (code statusCode : Z)
| TypeError
| SyntaxError (message : string)
| CosError (code message requestId : string).

Inductive Result (A : Type) :=
| Ok (a : A)
| Throw (e : exn).
Arguments Ok {A} a.
Arguments Throw {A} e.

(** Property read [v.k] for the property names this service reads
    ([id], [callSign], [myCallSign], [date], [mode], [cardType], [status]):
    reading from [null] throws, an object answers with its own property,
    every other value has no such property. *)
Definition get (v : value) (k : string) : Result (option value) :=
  match v with
  | JNull => Throw TypeError
  | JObj o => Ok (o !! k)
  | _ => Ok None
  end.

Global Instance Result_ret : MRet Result := λ A a, Ok a.
Global Instance Result_bind : MBind Result := λ A B f r,
  match r with
  | Ok a => f a
  | Throw e => Throw e
  end.

(** [l.filter(f)], [l.findIndex(f)] and a counting [forEach], where the
    callback may throw. *)
Fixpoint filterR {A} (f : A → Result bool) (l : list A) : Result (list A) :=
  match l with
  | [] => Ok []
  | x :: l' =>
      b ← f x; rest ← filterR f l'; Ok (if b : bool then x :: rest else rest)
  end.

Fixpoint findIndexR {A} (f : A → Result bool) (l : list A) (i : Z) : Result Z :=
  match l with
  | [] => Ok (-1)
  | x :: l' => b ← f x; if b : bool then Ok i else findIndexR f l' (i + 1)
  end.

(** ** The object store and the computations over it *)

Inductive CosRequest :=
| GetObject (key : string)
| PutObject (key body : string).

(** [bucket]: the blobs by key.  [requests]: the requests that reached the
    client, latest first.  [faults]: what the service answers to the coming
    requests, one entry for each: [Some e] fails the request with [e],
    [None] (and an exhausted list) serves it. *)
Record World := mkWorld {
  bucket : gmap string string;
  requests : list CosRequest;
  faults : list (option exn)
}.

Definition M (A : Type) : Type := World → Result A * World.

Global Instance M_ret : MRet M := λ A a w, (Ok a, w).
Global Instance M_bind : MBind M := λ A B f m w,
  match m w with
  | (Ok a, w') => f a w'
  | (Throw e, w') => (Throw e, w')
  end.

Definition throw {A} (e : exn) : M A := λ w, (Throw e, w).
Definition lift {A} (r : Result A) : M A := λ w, (r, w).

(** [try { m } catch (error) { h error }] *)
Definition try_catch {A} (m : M A) (h : exn → M A) : M A :=
  λ w, match m w with
       | (Ok a, w') => (Ok a, w')
       | (Throw e, w') => h e w'
       end.

Definition next_fault (w : World) : option exn * list (option exn) :=
  match faults w with
  | [] => (None, [])
  | f :: fs => (f, fs)
  end.

(** [cos.getObject({Bucket, Region, Key})]: the body of the blob, or the
    store's error; an absent key is the error with code [NoSuchKey]. *)
Definition cos_getObject (key : string) : M string :=
  λ w,
    let '(f, fs) := next_fault w in
    let w' := mkWorld (bucket w) (GetObject key :: requests w) fs in
    match f with
    | Some e => (Throw e, w')
    | None =>
        match bucket w !! key with
        | Some body => (Ok body, w')
        | None =>
            (Throw (CosError "NoSuchKey" "The specified key does not exist." ""), w')
        end
    end.

(** [cos.putObject({Bucket, Region, Key, Body, ContentType})] *)
Definition cos_putObject (key body : string) : M () :=
  λ w,
    let '(f, fs) := next_fault w in
    let reqs := PutObject key body :: requests w in
    match f with
    | Some e => (Throw e, mkWorld (bucket w) reqs fs)
    | None => (Ok (), mkWorld (<[key := body]> (bucket w)) reqs fs)
    end.

(** [error.code], [error.message] and [error.requestId] as the handlers read
    them. *)
Definition error_code (e : exn) : option string :=
  match e with
  | CosError c _ _ => Some c
  | _ => None
  end.

Definition error_message (e : exn) : option string :=
  match e with
  | QslError m _ _ | SyntaxError m | CosError _ m _ => Some m
  | TypeError => Some "TypeError"
  end.

Definition error_requestId (e : exn) : option string :=
  match e with
  | CosError _ _ r => Some r
  | _ => None
  end.

(** A property rendered inside a template literal. *)
Definition show (s : option string) : string := default "undefined" s.

Record Config := mkConfig {
  cfg_bucket : string;
  cfg_region : string;
  cfg_sentCards : string;
  cfg_receivedCards : string
}.

(** ** Dates

    Time values are milliseconds since the epoch; [None] is [NaN] (an
    invalid [Date]).  The calendar is the proleptic Gregorian one of
    ECMA-262; the day-number conversions are the closed forms that count
    from 1 March of year 0.  The host's zone is a fixed offset [tz]
    (milliseconds east of UTC). *)

Module JsDate.

Definition msPerDay : Z := 86400000.

Definition Day (t : Z) : Z := t / msPerDay.
Definition TimeWithinDay (t : Z) : Z := t mod msPerDay.

(** Day number of the civil date [y]-[m]-[d], [m] from 1 to 12. *)
Definition days_from_civil (y m d : Z) : Z :=
  let y' := if m <=? 2 then y - 1 else y in
  let era := y' / 400 in
  let yoe := y' - era * 400 in
  let mp := (m + 9) mod 12 in
  let doy := (153 * mp + 2) / 5 + d - 1 in
  let doe := yoe * 365 + yoe / 4 - yoe / 100 + doy in
  era * 146097 + doe - 719468.

(** Civil date (year, month from 1 to 12, day of month) of a day number. *)
Definition civil_from_days (z : Z) : Z * Z * Z :=
  let z := z + 719468 in
  let era := z / 146097 in
  let doe := z - era * 146097 in
  let yoe := (doe - doe / 1460 + doe / 36524 - doe / 146096) / 365 in
  let y := yoe + era * 400 in
  let doy := doe - (365 * yoe + yoe / 4 - yoe / 100) in
  let mp := (5 * doy + 2) / 153 in
  let d := doy - (153 * mp + 2) / 5 + 1 in
  let m := if mp <? 10 then mp + 3 else mp - 9 in
  (if m <=? 2 then y + 1 else y, m, d).

Definition YearFromTime (t : Z) : Z := (civil_from_days (Day t)).1.1.
(** 0 is January. *)
Definition MonthFromTime (t : Z) : Z := (civil_from_days (Day t)).1.2 - 1.
Definition DateFromTime (t : Z) : Z := (civil_from_days (Day t)).2.

(** [MakeDay(year, month, date)]: [month] may lie outside 0..11 and [date]
    outside the month; both carry over. *)
Definition MakeDay (year month date : Z) : Z :=
  let ym := year + month / 12 in
  let mn := month mod 12 in
  days_from_civil ym (mn + 1) 1 + date - 1.

Definition MakeDate (day time : Z) : Z := day * msPerDay + time.

Definition TimeClip (t : Z) : option Z :=
  if Z.abs t <=? 8640000000000000 then Some t else None.

Definition LocalTime (tz t : Z) : Z := t + tz.
Definition UTC (tz t : Z) : Z := t - tz.

Definition getFullYear (tz : Z) (d : option Z) : option Z :=
  t ← d; Some (YearFromTime (LocalTime tz t)).

Definition getMonth (tz : Z) (d : option Z) : option Z :=
  t ← d; Some (MonthFromTime (LocalTime tz t)).

(** [d.setMonth(month)], returning the new time value of [d]. *)
Definition setMonth (tz : Z) (d : option Z) (month : option Z) : option Z :=
  t ← d; m ← month;
  let lt := LocalTime tz t in
  let newDate := MakeDate (MakeDay (YearFromTime lt) m (DateFromTime lt))
                          (TimeWithinDay lt) in
  TimeClip (UTC tz newDate).

(** A number inside a template literal or under [String(...)]. *)
Definition showNum (n : option Z) : string :=
  match n with
  | None => "NaN"
  | Some z => pretty z
  end.

(** [`${d.getFullYear()}-${String(d.getMonth() + 1).padStart(2, '0')}`] *)
Definition monthKey (tz : Z) (d : option Z) : string :=
  showNum (getFullYear tz d) +:+ "-" +:+
  JsString.padStart2 (showNum ((λ m, m + 1) <$> getMonth tz d)).

Definition showYear (y : Z) : string :=
  if bool_decide (0 ≤ y ≤ 9999) then JsString.padStart 4 (pretty y)
  else (if y <? 0 then "-" else "+") +:+ JsString.padStart 6 (pretty (Z.abs y)).

(** [new Date(t).toISOString()] for a valid time value [t]. *)
Definition toISOString (t : Z) : string :=
  let '(y, m, d) := civil_from_days (Day t) in
  let ms := TimeWithinDay t in
  showYear y +:+ "-" +:+ JsString.padStart 2 (pretty m) +:+ "-" +:+
  JsString.padStart 2 (pretty d) +:+ "T" +:+
  JsString.padStart 2 (pretty (ms / 3600000)) +:+ ":" +:+
  JsString.padStart 2 (pretty (ms / 60000 mod 60)) +:+ ":" +:+
  JsString.padStart 2 (pretty (ms / 1000 mod 60)) +:+ "." +:+
  JsString.padStart 3 (pretty (ms mod 1000)) +:+ "Z".

Definition InLeapYear (y : Z) : bool :=
  ((y mod 4 =? 0) && negb (y mod 100 =? 0)) || (y mod 400 =? 0).

Definition DaysInMonth (y m : Z) : Z :=
  if m =? 2 then (if InLeapYear y then 29 else 28)
  else if bool_decide (m ∈ [4; 6; 9; 11]) then 30 else 31.

Definition digit (c : ascii) : option Z :=
  if JsString.is_digit c then Some (Z.of_nat (nat_of_ascii c) - 48) else None.

Definition number (cs : list ascii) : option Z :=
  foldl (λ acc c, a ← acc; d ← digit c; Some (10 * a + d)) (Some 0) cs.

(** The date-only form [YYYY-MM-DD] of the ECMA-262 date-time string
    format, read as UTC midnight; every other string is left
    unrecognised. *)
Definition parseDateOnly (s : string) : option Z :=
  match JsString.chars s with
  | [y1; y2; y3; y4; "-"; m1; m2; "-"; d1; d2]%char =>
      y ← number [y1; y2; y3; y4];
      m ← number [m1; m2];
      d ← number [d1; d2];
      if bool_decide (1 ≤ m ≤ 12 ∧ 1 ≤ d ≤ DaysInMonth y m)
      then Some (days_from_civil y m d * msPerDay) else None
  | _ => None
  end.

End JsDate.

(** ** A JSON reader and printer

    One concrete codec to run the service against: documents are printed
    compactly and read back by recursive descent.  The service itself is
    stated over whatever [JSON.parse] and [JSON.stringify] the host has. *)

Module Json.

Fixpoint escape (s : string) : string :=
  match s with
  | EmptyString => EmptyString
  | String c s' =>
      let rest := escape s' in
      if bool_decide (c = "034"%char) then String "\" (String "034" rest)
      else if bool_decide (c = "\"%char) then String "\" (String "\" rest)
      else if bool_decide (c = "010"%char) then String "\" (String "n" rest)
      else if bool_decide (c = "009"%char) then String "\" (String "t" rest)
      else if bool_decide (c = "013"%char) then String "\" (String "r" rest)
      else String c rest
  end.

Definition quote (s : string) : string :=
  String "034" (escape s) +:+ String "034" "".

Fixpoint print (v : value) : string :=
  match v with
  | JNull => "null"
  | JBool true => "true"
  | JBool false => "false"
  | JNum n => pretty n
  | JStr s => quote s
  | JArr l => "[" +:+ JsString.join "," (map print l) +:+ "]"
  | JObj o =>
      "{" +:+
      JsString.join ","
        (map (λ kv, quote kv.1 +:+ ":" +:+ kv.2) (map_to_list (print <$> o)))
      +:+ "}"
  end.

Definition is_ws (c : ascii) : bool :=
  bool_decide (nat_of_ascii c ∈ [9; 10; 13; 32]%nat).

Fixpoint skip_ws (s : list ascii) : list ascii :=
  match s with
  | c :: s' => if is_ws c then skip_ws s' else s
  | [] => []
  end.

(** The characters of a string literal after its opening quote. *)
Fixpoint read_string (s : list ascii) (acc : list ascii)
  : option (string * list ascii) :=
  match s with
  | [] => None
  | c :: s' =>
      if bool_decide (c = "034"%char)
      then Some (String.string_of_list_ascii (reverse acc), s')
      else if bool_decide (c = "\"%char) then
        match s' with
        | e :: s'' =>
            if bool_decide (e = "n"%char) then read_string s'' ("010"%char :: acc)
            else if bool_decide (e = "t"%char) then read_string s'' ("009"%char :: acc)
            else if bool_decide (e = "r"%char) then read_string s'' ("013"%char :: acc)
            else if bool_decide (e ∈ ["034"; "\"; "/"]%char) then read_string s'' (e :: acc)
            else None
        | [] => None
        end
      else read_string s' (c :: acc)
  end.

Fixpoint read_digits (s : list ascii) (acc : Z) : Z * list ascii :=
  match s with
  | c :: s' =>
      match JsDate.digit c with
      | Some d => read_digits s' (10 * acc + d)
      | None => (acc, s)
      end
  | [] => (acc, [])
  end.

Definition starts_with_digit (s : list ascii) : bool :=
  match s with
  | c :: _ => JsString.is_digit c
  | [] => false
  end.

Inductive mode := AValue | Elements | Members.

(** [Elements] reads what follows the opening bracket of a non-empty
    array up to its closing bracket, [Members] likewise for an object. *)
Fixpoint read (fuel : nat) (m : mode) (s : list ascii)
  : option (value * list ascii) :=
  match fuel with
  | O => None
  | S fuel =>
      match m with
      | AValue =>
          match skip_ws s with
          | "n" :: "u" :: "l" :: "l" :: r => Some (JNull, r)
          | "t" :: "r" :: "u" :: "e" :: r => Some (JBool true, r)
          | "f" :: "a" :: "l" :: "s" :: "e" :: r => Some (JBool false, r)
          | "034" :: r => '(str, r') ← read_string r []; Some (JStr str, r')
          | "[" :: r =>
              match skip_ws r with
              | "]" :: r' => Some (JArr [], r')
              | _ => read fuel Elements r
              end
          | "{" :: r =>
              match skip_ws r with
              | "}" :: r' => Some (JObj ∅, r')
              | _ => read fuel Members r
              end
          | "-" :: r =>
              if starts_with_digit r
              then let '(n, r') := read_digits r 0 in Some (JNum (- n), r')
              else None
          | r =>
              if starts_with_digit r
              then let '(n, r') := read_digits r 0 in Some (JNum n, r')
              else None
          end%char
      | Elements =>
          '(v, r) ← read fuel AValue s;
          match skip_ws r with
          | "," :: r' =>
              '(rest, r'') ← read fuel Elements r';
              match rest with
              | JArr l => Some (JArr (v :: l), r'')
              | _ => None
              end
          | "]" :: r' => Some (JArr [v], r')
          | _ => None
          end%char
      | Members =>
          match skip_ws s with
          | "034" :: r =>
              '(k, r1) ← read_string r [];
              match skip_ws r1 with
              | ":" :: r2 =>
                  '(v, r3) ← read fuel AValue r2;
                  match skip_ws r3 with
                  | "," :: r4 =>
                      '(rest, r5) ← read fuel Members r4;
                      match rest with
                      | JObj o => Some (JObj (o ∪ {[k := v]}), r5)
                      | _ => None
                      end
                  | "}" :: r4 => Some (JObj {[k := v]}, r4)
                  | _ => None
                  end
              | _ => None
              end
          | _ => None
          end%char
      end
  end.

(** The document, or the message of the [SyntaxError]. *)
Definition parse (s : string) : string + value :=
  let cs := JsString.chars s in
  match read (2 * length cs + 2) AValue cs with
  | Some (v, r) =>
      match skip_ws r with
      | [] => inr v
      | _ => inl "Unexpected non-whitespace character after JSON"
      end
  | None => inl "Unexpected token in JSON"
  end.

End Json.

(** ** The service *)

(** The outcome of [JSON.parse]. *)
Definition parsed (r : string + value) : Result value :=
  match r with
  | inl message => Throw (SyntaxError message)
  | inr v => Ok v
  end.

(** [Array.isArray(v)] *)
Definition isArray (v : value) : bool :=
  match v with
  | JArr _ => true
  | _ => false
  end.

(** The receiver of [.filter], [.findIndex] and [.push]: only an array has
    these methods. *)
Definition as_array (v : value) : Result (list value) :=
  match v with
  | JArr l => Ok l
  | _ => Throw TypeError
  end.

(** The receiver of [.substring], [.toLowerCase] and [.toUpperCase]: only a
    string has these methods. *)
Definition as_string (v : option value) : Result string :=
  match v with
  | Some (JStr s) => Ok s
  | _ => Throw TypeError
  end.

(** [[...v]]: an array spreads its elements, a string its characters,
    nothing else in a document is iterable. *)
Definition spread (v : value) : Result (list value) :=
  match v with
  | JArr l => Ok l
  | JStr s => Ok ((λ c, JStr (String c "")) <$> JsString.chars s)
  | _ => Throw TypeError
  end.

(** [v.length] of a value that went through [spread]. *)
Definition length_of (v : value) : nat :=
  match v with
  | JArr l => length l
  | JStr s => String.length s
  | _ => 0%nat
  end.

(** [l.forEach(f)] where [f] updates a local and may throw. *)
Fixpoint forEachR {S A} (f : S → A → Result S) (l : list A) (s : S) : Result S :=
  match l with
  | [] => Ok s
  | x :: l' => s' ← f s x; forEachR f l' s'
  end.

(** [!v?.trim()] *)
Definition blank (v : option value) : Result bool :=
  match v with
  | None | Some JNull => Ok true
  | Some (JStr s) => Ok (bool_decide (JsString.trim s = ""))
  | Some _ => Throw TypeError
  end.

(** [/^\d{4}-\d{2}-\d{2}$/.test(v)] *)
Definition date_regex_test (v : option value) : bool :=
  match JsString.chars (toStringOpt v) with
  | [y1; y2; y3; y4; h1; m1; m2; h2; d1; d2] =>
      forallb JsString.is_digit [y1; y2; y3; y4]
      && bool_decide (h1 = "-"%char)
      && forallb JsString.is_digit [m1; m2]
      && bool_decide (h2 = "-"%char)
      && forallb JsString.is_digit [d1; d2]
  | _ => false
  end.

(** [if (c) errors.push(msg)] *)
Definition push_if (c : bool) (msg : string) (errors : list string) : list string :=
  if c then errors ++ [msg] else errors.

Definition validateCardData (card : value) (isSentCard : bool) : Result () :=
  let errors := [] in
  callSign ← get card "callSign";
  b ← blank callSign;
  let errors := push_if b "对方呼号不能为空" errors in
  myCallSign ← get card "myCallSign";
  b ← blank myCallSign;
  let errors := push_if b "我的呼号不能为空" errors in
  date ← get card "date";
  let errors :=
    push_if (negb (date_regex_test date)) "通联日期格式不正确(YYYY-MM-DD)" errors in
  mode ← get card "mode";
  b ← blank mode;
  let errors := push_if b "通信模式不能为空" errors in
  cardType ← get card "cardType";
  let errors :=
    push_if (negb (includes ["online"; "physical"] cardType))
            "卡片类型必须是online或physical" errors in
  status ← get card "status";
  let errors :=
    push_if (isSentCard && negb (includes ["pending"; "sent"] status))
            "已发送卡片状态必须是pending或sent" errors in
  let errors :=
    push_if (negb isSentCard && truthy status
             && negb (includes ["received"; "verified"] status))
            "已接收卡片状态必须是received或verified" errors in
  if bool_decide (0 < length errors)%nat
  then Throw (QslError ("卡片数据验证失败: " +:+ JsString.join "; " errors) 2001 400)
  else Ok ().

(** The object literal
    [{ id: uuidv4(), ...cardData, createdAt: ..., updatedAt: ... }]:
    a later property replaces an earlier one of the same name. *)
Definition newCardOf (uuid : string) (t_created t_updated : Z) (cardData : value)
  : record :=
  <["updatedAt" := JStr (JsDate.toISOString t_updated)]>
    (<["createdAt" := JStr (JsDate.toISOString t_created)]>
       (own_props (Some cardData) ∪ {["id" := JStr uuid]})).

Record Stats := mkStats {
  received : nat;
  sent : nat;
  pending : nat;
  countries : nat;
  eyeQso : nat;
  receivedGrowth : Z;
  sentGrowth : Z;
  countryGrowth : Z
}.

Record Monthly := mkMonthly {
  labels : list string;
  monthly_sent : list nat;
  monthly_pending : list nat;
  monthly_received : list nat
}.

(** [modes] holds the object [modes] of the source: [labels] and [data] of
    the response are its keys and its values, listed in parallel. *)
Record Chart := mkChart {
  monthly : Monthly;
  modes : gmap string nat
}.


(** ** The request handler's data *)

Record SystemStatus := mkSystemStatus {
  status_text : string;
  status_message : string;
  status_timestamp : string
}.

(** [getSystemStatus()]; [now] is the reading of [new Date()]. *)
Definition getSystemStatus (now : Z) : SystemStatus :=
  {| status_text := "normal";
     status_message := "服务正常运行中";
     status_timestamp := JsDate.toISOString now |}.

(** [CONFIG.supportedActions] *)
Definition supportedActions : list string :=
  ["ping"; "getStats"; "getChartData"; "getSentCards"; "getReceivedCards";
   "saveCard"; "deleteCard"].

(** The event of the cloud function: each field as the caller sent it, or
    [None] when it is not there. *)
Record Event := mkEvent {
  ev_httpMethod : option value;
  ev_queryString : option value;
  ev_body : option value;
  ev_isBase64Encoded : option value;
  ev_requestId : option value
}.

(** What an operation returns, before it is serialized into the response. *)
Inductive Payload :=
| StatusPayload (s : SystemStatus)
| StatsPayload (s : Stats)
| ChartPayload (c : Chart)
| ValuePayload (v : value)
| BoolPayload (b : bool).

(** The object that [JSON.stringify] turns into the body of the response,
    or the empty body of the preflight answer. *)
Inductive Envelope :=
| EmptyBody
| SuccessBody (code : Z) (message : string) (data : Payload) (requestId : value)
| FailureBody (code : value) (message : string) (requestId : value).

Record Response := mkResponse {
  statusCode : Z;
  headers : list (string * string);
  body : Envelope
}.

Definition cors_headers : list (string * string) :=
  [("Access-Control-Allow-Origin", "*");
   ("Access-Control-Allow-Methods", "POST, GET, OPTIONS, DELETE");
   ("Access-Control-Allow-Headers", "Content-Type");
   ("Content-Type", "application/json")].

(** What one request draws from the environment: the clock reading of
    [ping], the three floored random draws of [getStats], the clock of the
    chart's passes, the uuid and the two clock readings of [saveCard], and
    the uuid of the envelope. *)
Record Draws := mkDraws {
  draw_now : Z;
  draw_random : Z * Z * Z;
  draw_clock : Z → Z;
  draw_uuid : string;
  draw_created : Z;
  draw_updated : Z;
  draw_requestId : string
}.

(** A property read from a value that is not [null], as destructuring
    [const { k } = v] does it. *)
Definition prop (v : option value) (k : string) : option value :=
  match v with
  | Some (JObj o) => o !! k
  | _ => None
  end.

(** [error.statusCode || 500], [error.code || -1] and
    [error.message || '服务器内部错误'] of the handler's [catch]. *)
Definition response_status (e : exn) : Z :=
  match e with
  | QslError _ _ s => if s =? 0 then 500 else s
  | _ => 500
  end.

Definition response_code (e : exn) : value :=
  match e with
  | QslError _ c _ => if c =? 0 then JNum (-1) else JNum c
  | CosError c _ _ => if bool_decide (c = "") then JNum (-1) else JStr c
  | _ => JNum (-1)
  end.

Definition response_message (e : exn) : string :=
  match error_message e with
  | Some m => if bool_decide (m = "") then "服务器内部错误" else m
  | None => "服务器内部错误"
  end.

(** ** A base64 reader

    One concrete [Buffer.from(text, 'base64').toString('utf8')] to run the
    handler against: the characters of the base64 alphabet are read six
    bits at a time up to the padding. *)

Module Base64.

Definition sextet (c : ascii) : option N :=
let n := N_of_ascii c in
if bool_decide (65 ≤ n ≤ 90)%N then Some (n - 65)%N
else if bool_decide (97 ≤ n ≤ 122)%N then Some (n - 71)%N
else if bool_decide (48 ≤ n ≤ 57)%N then Some (n + 4)%N
else if bool_decide (n = 43)%N then Some 62%N
else if bool_decide (n = 47)%N then Some 63%N
else None.

Fixpoint bytes (l : list N) : list ascii :=
match l with
| a :: b :: c :: d :: rest =>
    ascii_of_N (a * 4 + b / 16) :: ascii_of_N (b mod 16 * 16 + c / 4)
    :: ascii_of_N (c mod 4 * 64 + d) :: bytes rest
| [a; b; c] => [ascii_of_N (a * 4 + b / 16); ascii_of_N (b mod 16 * 16 + c / 4)]
| [a; b] => [ascii_of_N (a * 4 + b / 16)]
| _ => []
end.

Definition decode_text (s : string) : string :=
String.string_of_list_ascii (bytes (omap sextet (JsString.chars s))).

(** The text, or the message of the [TypeError] for an argument that is not
  a string. *)
Definition decode (v : value) : string + string :=
match v with
| JStr s => inr (decode_text s)
| _ => inl "The first argument must be of type string"
end.

End Base64.
(** ** Sample data *)

Module Sample.

Definition config : Config :=
  mkConfig "qsl-cards" "ap-guangzhou" "data/sent.json" "data/received.json".

Definition object (fields : list (string * value)) : record := list_to_map fields.

(** A world whose store serves every request and holds the two
    collections, printed by [Json.print]. *)
Definition world (sentCards receivedCards : list record) : World :=
  mkWorld
    (<[cfg_sentCards config := Json.print (JArr (JObj <$> sentCards))]>
       (<[cfg_receivedCards config := Json.print (JArr (JObj <$> receivedCards))]> ∅))
    [] [].

(** A card that passes the validator for the sent role, with or without
    an id of its own. *)
Definition card (id : option string) : record :=
  object ([("callSign", JStr "JA1ABC"); ("myCallSign", JStr "BG2XYZ");
           ("date", JStr "2024-01-15"); ("mode", JStr "CW");
           ("cardType", JStr "online"); ("status", JStr "pending")]
          ++ match id with
             | Some i => [("id", JStr i)]
             | None => []
             end).

(** An entry as an earlier save left it, with a field of its own. *)
Definition kept_card : record :=
  <["note" := JStr "first contact"]>
    (<["createdAt" := JStr "2023-12-01T08:00:00.000Z"]>
       (<["updatedAt" := JStr "2023-12-01T08:00:00.000Z"]> (card (Some "c1")))).



(** The collections of the chart scenario. *)
Definition chart_sent : list record :=
  [object [("date", JStr "2024-01-15")]; object [("date", JStr "2024-02-01")]].

Definition chart_received : list record :=
  [object [("date", JStr "2024-02-10")]].

(** Noon UTC of 15 February 2024 and of 31 March 2024. *)
Definition mid_february_2024 : Z := 1707998400000.
Definition end_of_march_2024 : Z := 1711886400000.

(** A store in which nothing was ever written. *)
Definition fresh : World := mkWorld ∅ [] [].

End Sample.

Section Service.

(** [JSON.parse(text)], which returns the document or throws a
    [SyntaxError] with a message, and [JSON.stringify(data, null, 2)] *)
Variable JSON_parse : string → string + value.
Variable JSON_stringify : value → string.
(** [Date.parse(text)] *)
Variable Date_parse : string → option Z.
(** The local zone's offset from UTC, in milliseconds. *)
Variable tz : Z.
Variable CONFIG : Config.
(** [Buffer.from(v, 'base64').toString('utf8')]: the text, or the message
    of the exception. *)
Variable Buffer_decode : value → string + string.

Definition readFromCos (key : string) : M value :=
  try_catch
    (result ← cos_getObject key;
     let content := JsString.trim result in
     if bool_decide (content = "") then mret (JArr [])
     else lift (parsed (JSON_parse content)))
    (λ error,
       let code := error_code error in
       let requestId := show (error_requestId error) in
       if bool_decide (code = Some "NoSuchKey") then mret (JArr [])
       else if bool_decide (code = Some "SignatureDoesNotMatch") then
         throw (QslError ("COS签名验证失败: 请检查SecretId/SecretKey和区域配置 (RequestId: "
                          +:+ requestId +:+ ")") 1001 403)
       else if bool_decide (code = Some "AccessDenied") then
         throw (QslError ("访问权限不足: 请检查密钥权限配置 (RequestId: "
                          +:+ requestId +:+ ")") 1002 403)
       else if bool_decide (code = Some "InvalidBucketName") then
         throw (QslError ("Bucket名称无效: " +:+ cfg_bucket CONFIG +:+ " (RequestId: "
                          +:+ requestId +:+ ")") 1003 400)
       else if bool_decide (code = Some "InvalidRegion") then
         throw (QslError ("区域配置无效: " +:+ cfg_region CONFIG +:+ " (RequestId: "
                          +:+ requestId +:+ ")") 1004 400)
       else
         throw (QslError ("数据读取失败: " +:+ show (error_message error) +:+ " ("
                          +:+ show code +:+ ")") 1005 500)).

Definition writeToCos (key : string) (data : value) : M () :=
  if negb (isArray data) then throw (QslError "写入的数据必须是数组" 1002 400)
  else
    try_catch
      (cos_putObject key (JSON_stringify data))
      (λ error,
         throw (QslError ("数据保存失败: " +:+ show (error_message error)) 1003 500)).

(** The three growth figures are [Math.floor(Math.random() * k) + 1]; the
    floored draws are [r1], [r2] and [r3]. *)
Definition getStats (r1 r2 r3 : Z) : M Stats :=
  sentCards ← readFromCos (cfg_sentCards CONFIG);
  receivedCards ← readFromCos (cfg_receivedCards CONFIG);
  lift (
    s ← spread sentCards;
    r ← spread receivedCards;
    countries ←
      forEachR (λ (countries : gset string) card,
                  callSign ← get card "callSign";
                  if truthy callSign then
                    cs ← as_string callSign;
                    let country := JsString.toUpperCase (JsString.prefix 2 cs) in
                    Ok ({[country]} ∪ countries)
                  else Ok countries)
               (s ++ r) ∅;
    s ← spread sentCards;
    r ← spread receivedCards;
    eye ←
      filterR (λ card,
                 mode ← get card "mode";
                 match mode with
                 | None | Some JNull => Ok false
                 | _ => m ← as_string mode;
                        Ok (bool_decide (JsString.toLowerCase m = "eye"))
                 end)
              (s ++ r);
    let eyeQsoCount := length eye in
    sentArray ← as_array sentCards;
    pendingCards ←
      filterR (λ card,
                 status ← get card "status";
                 Ok (strict_eq status (Some (JStr "pending"))))
              sentArray;
    Ok {| received := length_of receivedCards;
          sent := length_of sentCards;
          pending := length pendingCards;
          countries := size countries;
          eyeQso := eyeQsoCount;
          receivedGrowth := r1 + 1;
          sentGrowth := r2 + 1;
          countryGrowth := r3 + 1 |}).

(** [new Date(v)], as a time value. *)
Definition newDate (v : value) : option Z :=
  match v with
  | JStr s => Date_parse s
  | JArr _ | JObj _ => Date_parse (toStringJS v)
  | JNum n => JsDate.TimeClip n
  | JBool b => Some (if b then 1 else 0)
  | JNull => Some 0
  end.

(** The callback of the three monthly filters. *)
Definition in_month (monthKey : string) (card : value) : Result bool :=
  date ← get card "date";
  if negb (truthy date) then Ok false
  else
    let cardDate := v ← date; newDate v in
    if bool_decide (cardDate = None) then Ok false
    else Ok (bool_decide (JsDate.monthKey tz cardDate = monthKey)).

(** One pass of the loop [for (let i = 5; i >= 0; i--)]; [now] is the
    reading of [new Date()] in that pass. *)
Definition month_pass (sentCards receivedCards : value) (now i : Z) (acc : Monthly)
  : Result Monthly :=
  let date := Some now in
  let date := JsDate.setMonth tz date ((λ m, m - i) <$> JsDate.getMonth tz date) in
  let monthKey := JsDate.monthKey tz date in
  sentArray ← as_array sentCards;
  s ← filterR (in_month monthKey) sentArray;
  p ← filterR (in_month monthKey) sentArray;
  receivedArray ← as_array receivedCards;
  r ← filterR (in_month monthKey) receivedArray;
  Ok {| labels := labels acc ++ [monthKey];
        monthly_sent := monthly_sent acc ++ [length s];
        monthly_pending := monthly_pending acc ++ [length p];
        monthly_received := monthly_received acc ++ [length r] |}.

(** [clock i] is the reading of [new Date()] in the pass with index [i]. *)
Definition getChartData (clock : Z → Z) : M Chart :=
  sentCards ← readFromCos (cfg_sentCards CONFIG);
  receivedCards ← readFromCos (cfg_receivedCards CONFIG);
  lift (
    months ←
      forEachR (λ acc i, month_pass sentCards receivedCards (clock i) i acc)
               [5; 4; 3; 2; 1; 0] (mkMonthly [] [] [] []);
    s ← spread sentCards;
    r ← spread receivedCards;
    modes ←
      forEachR (λ (modes : gmap string nat) card,
                  mode ← get card "mode";
                  upper ← match mode with
                          | None | Some JNull => Ok ""
                          | _ => m ← as_string mode; Ok (JsString.toUpperCase m)
                          end;
                  let mode := if bool_decide (upper = "") then "OTHER" else upper in
                  Ok (<[mode := (default 0%nat (modes !! mode) + 1)%nat]> modes))
               (s ++ r) ∅;
    Ok {| monthly := months; modes := modes |}).

(** [uuid] is the value of [uuidv4()], [t_created] and [t_updated] the two
    readings of [new Date()], in the order the object literal takes them.
    A payload that is absent from the request behaves as [JNull] does. *)
Definition saveCard (uuid : string) (t_created t_updated : Z)
    (cardData : value) (isSentCard : bool) : M value :=
  lift (validateCardData cardData isSentCard);;
  let path := if isSentCard then cfg_sentCards CONFIG else cfg_receivedCards CONFIG in
  cards ← readFromCos path;
  let newCard := newCardOf uuid t_created t_updated cardData in
  cardsArray ← lift (as_array cards);
  existingIndex ←
    lift (findIndexR (λ card, id ← get card "id"; Ok (strict_eq id (newCard !! "id")))
                     cardsArray 0);
  let cards :=
    if 0 <=? existingIndex
    then <[Z.to_nat existingIndex := JObj newCard]> cardsArray
    else cardsArray ++ [JObj newCard] in
  writeToCos path (JArr cards);;
  mret (JObj newCard).

(** [cardId] is [None] when the request carries none. *)
Definition deleteCard (cardId : option value) (isSentCard : bool) : M bool :=
  if negb (truthy cardId) then throw (QslError "卡片ID不能为空" 2002 400)
  else
    let path := if isSentCard then cfg_sentCards CONFIG else cfg_receivedCards CONFIG in
    cards ← readFromCos path;
    cardsArray ← lift (as_array cards);
    let initialLength := length cardsArray in
    filteredCards ←
      lift (filterR (λ card, id ← get card "id"; Ok (negb (strict_eq id cardId)))
                    cardsArray);
    if bool_decide (length filteredCards = initialLength) then
      throw (QslError ("未找到ID为" +:+ toStringOpt cardId +:+ "的卡片") 2003 404)
    else
      writeToCos path (JArr filteredCards);;
      mret true.


(** The request body of the handler: the parsed object of lines 362-376,
    with any failure of the decoding or of the parse turned into the typed
    failure 3001. *)
Definition parse_body (event : Event) : Result value :=
  if truthy (ev_body event) then
    let attempt : Result value :=
      if truthy (ev_isBase64Encoded event) then
        match Buffer_decode (default JNull (ev_body event)) with
        | inl message => Throw (SyntaxError message)
        | inr decodedBody =>
            if bool_decide (decodedBody = "") then Ok (JObj ∅)
            else parsed (JSON_parse decodedBody)
        end
      else
        match ev_body event with
        | Some (JStr text) => parsed (JSON_parse text)
        | other => Ok (default JNull other)
        end in
    match attempt with
    | Ok requestBody => Ok requestBody
    | Throw parseError =>
        Throw (QslError ("请求体格式错误: " +:+ show (error_message parseError))
                        3001 400)
    end
  else Ok (JObj ∅).

(** The [switch] over the action. *)
Definition dispatch (d : Draws) (action : option value) (requestBody : value)
    (cardId type : option value) : M Payload :=
  if strict_eq action (Some (JStr "ping")) then
    mret (StatusPayload (getSystemStatus (draw_now d)))
  else if strict_eq action (Some (JStr "getStats")) then
    let '(r1, r2, r3) := draw_random d in
    result ← getStats r1 r2 r3; mret (StatsPayload result)
  else if strict_eq action (Some (JStr "getChartData")) then
    result ← getChartData (draw_clock d); mret (ChartPayload result)
  else if strict_eq action (Some (JStr "getSentCards")) then
    result ← readFromCos (cfg_sentCards CONFIG); mret (ValuePayload result)
  else if strict_eq action (Some (JStr "getReceivedCards")) then
    result ← readFromCos (cfg_receivedCards CONFIG); mret (ValuePayload result)
  else if strict_eq action (Some (JStr "saveCard")) then
    bodyType ← lift (get requestBody "type");
    let isSent := negb (strict_eq bodyType (Some (JStr "received"))) in
    cardData ← lift (get requestBody "cardData");
    result ← saveCard (draw_uuid d) (draw_created d) (draw_updated d)
                      (default JNull cardData) isSent;
    mret (ValuePayload result)
  else if strict_eq action (Some (JStr "deleteCard")) then
    if negb (truthy type) then
      throw (QslError "请指定卡片类型(type=sent/received)" 3003 400)
    else
      result ← deleteCard cardId (strict_eq type (Some (JStr "sent")));
      mret (BoolPayload result)
  else
    throw (QslError ("未知的action: " +:+ toStringOpt action) 3004 400).

(** The body of the handler's [try]. *)
Definition handle (d : Draws) (event : Event) : M Payload :=
  let query :=
    if truthy (ev_queryString event) then ev_queryString event else Some (JObj ∅) in
  let queryAction := prop query "action" in
  let cardId := prop query "cardId" in
  let type := prop query "type" in
  requestBody ← lift (parse_body event);
  bodyAction ← lift (get requestBody "action");
  let action := if truthy queryAction then queryAction else bodyAction in
  if negb (truthy action) || negb (includes supportedActions action) then
    throw (QslError ("请提供有效的action参数，支持的操作: "
                     +:+ JsString.join ", " supportedActions) 3002 400)
  else dispatch d action requestBody cardId type.

(** [event.requestId || uuidv4()] *)
Definition envelope_requestId (d : Draws) (event : Event) : value :=
  match ev_requestId event with
  | Some v => if truthy (Some v) then v else JStr (draw_requestId d)
  | None => JStr (draw_requestId d)
  end.

Definition handleRequest (d : Draws) (event : Event) (w : World) : Response * World :=
  if strict_eq (ev_httpMethod event) (Some (JStr "OPTIONS")) then
    (mkResponse 204 cors_headers EmptyBody, w)
  else
    match handle d event w with
    | (Ok result, w') =>
        (mkResponse 200 cors_headers
           (SuccessBody 0 "操作成功" result (envelope_requestId d event)), w')
    | (Throw error, w') =>
        (mkResponse (response_status error) cors_headers
           (FailureBody (response_code error) (response_message error)
                        (envelope_requestId d event)), w')
    end.

(** [exports.main_handler]: the request id of the context becomes the
    event's. *)
Definition main_handler (d : Draws) (event : Event) (contextRequestId : option value)
    (w : World) : Response * World :=
  handleRequest d
    (mkEvent (ev_httpMethod event) (ev_queryString event) (ev_body event)
             (ev_isBase64Encoded event) contextRequestId) w.


(** *** Vocabulary of the properties *)

(** The store serves the coming requests. *)
Definition healthy (w : World) : Prop := faults w = [].

(** The world after a request that changed nothing in the bucket. *)
Definition logged (rq : CosRequest) (w : World) : World :=
  mkWorld (bucket w) (rq :: requests w) (faults w).

(** The store holds the collection [recs] under [key]: the blob is the
    document of that array of records, or there is no blob, or a blank
    one, and the collection is empty. *)
Definition holds (w : World) (key : string) (recs : list record) : Prop :=
  match bucket w !! key with
  | None => recs = []
  | Some body =>
      if bool_decide (JsString.trim body = "") then recs = []
      else JSON_parse (JsString.trim body) = inr (JArr (JObj <$> recs))
  end.

(** The record carries the id [idv], by the comparison the service uses. *)
Definition has_id (idv : option value) (r : record) : bool :=
  strict_eq (r !! "id") idv.

(** No two entries of the collection carry the same id. *)
Definition ids_unique (recs : list record) : Prop :=
  ∀ i j r1 r2,
    recs !! i = Some r1 → recs !! j = Some r2 →
    has_id (r1 !! "id") r2 = true → i = j.

(** Reading back what [JSON.stringify] printed gives the document. *)
Definition reads_back (data : value) : Prop :=
  JsString.trim (JSON_stringify data) ≠ "" ∧
  JSON_parse (JsString.trim (JSON_stringify data)) = inr data.

(** Upsert in the words of the specification: scan for an entry whose id
    equals the record's; replace it where it stands, or append. *)
Definition upsert (recs : list record) (r : record) : list record :=
  match list_find (λ x, has_id (r !! "id") x = true) recs with
  | Some (i, _) => <[i := r]> recs
  | None => recs ++ [r]
  end.

(** Removal in the words of the specification: the entries whose id is
    not [idv], in their order. *)
Definition without_id (idv : option value) (recs : list record) : list record :=
  filter (λ r, has_id idv r = false) recs.

(** A value that is compared by what it holds: anything but an object or
    an array. *)
Definition primitive (v : option value) : Prop :=
  match v with
  | Some (JArr _) | Some (JObj _) => False
  | _ => True
  end.

(** The validator's rules, as the specification lists them. *)
Inductive rule :=
| CallSignGiven
| MyCallSignGiven
| DateFormat
| ModeGiven
| CardTypeKnown
| StatusAllowed.

Definition all_rules : list rule :=
  [CallSignGiven; MyCallSignGiven; DateFormat; ModeGiven; CardTypeKnown;
   StatusAllowed].

(** Non-empty after trimming white space. *)
Definition nonblank_text (v : option value) : bool :=
  match v with
  | Some (JStr s) => negb (bool_decide (JsString.trim s = ""))
  | _ => false
  end.

(** Four digits, dash, two digits, dash, two digits. *)
Definition date_shape : list (ascii → bool) :=
  let d := JsString.is_digit in
  let dash := λ c, bool_decide (c = "-"%char) in
  [d; d; d; d; dash; d; d; dash; d; d].

Definition date_text (v : option value) : bool :=
  let cs := JsString.chars (toStringOpt v) in
  bool_decide (length cs = length date_shape)
  && forallb (λ pc, pc.1 pc.2) (zip date_shape cs).

Definition one_of (l : list string) (v : option value) : bool :=
  match v with
  | Some (JStr s) => bool_decide (s ∈ l)
  | _ => false
  end.

(** A status is present when the guard [card.status &&] lets it through. *)
Definition satisfies (card : record) (isSentCard : bool) (r : rule) : bool :=
  match r with
  | CallSignGiven => nonblank_text (card !! "callSign")
  | MyCallSignGiven => nonblank_text (card !! "myCallSign")
  | DateFormat => date_text (card !! "date")
  | ModeGiven => nonblank_text (card !! "mode")
  | CardTypeKnown => one_of ["online"; "physical"] (card !! "cardType")
  | StatusAllowed =>
      if isSentCard then one_of ["pending"; "sent"] (card !! "status")
      else negb (truthy (card !! "status"))
           || one_of ["received"; "verified"] (card !! "status")
  end.

Definition rule_message (isSentCard : bool) (r : rule) : string :=
  match r with
  | CallSignGiven => "对方呼号不能为空"
  | MyCallSignGiven => "我的呼号不能为空"
  | DateFormat => "通联日期格式不正确(YYYY-MM-DD)"
  | ModeGiven => "通信模式不能为空"
  | CardTypeKnown => "卡片类型必须是online或physical"
  | StatusAllowed =>
      if isSentCard then "已发送卡片状态必须是pending或sent"
      else "已接收卡片状态必须是received或verified"
  end.

Definition violations (card : record) (isSentCard : bool) : list rule :=
  filter (λ r, satisfies card isSentCard r = false) all_rules.

(** A text field the validator can trim: a string, or nothing. *)
Definition text_or_absent (v : option value) : Prop :=
  match v with
  | None | Some JNull | Some (JStr _) => True
  | _ => False
  end.

Global Instance text_or_absent_dec v : Decision (text_or_absent v).
Proof. destruct v as [[]|]; simpl; apply _. Defined.

Definition texts_typed (card : record) : Prop :=
  text_or_absent (card !! "callSign") ∧ text_or_absent (card !! "myCallSign")
  ∧ text_or_absent (card !! "mode").

Global Instance texts_typed_dec card : Decision (texts_typed card).
Proof. unfold texts_typed. apply _. Defined.




Definition count {A} (p : A → bool) (l : list A) : nat :=
  length (filter (λ x, p x = true) l).



Definition mode_typed (r : record) : Prop := text_or_absent (r !! "mode").

(** The failure that reports the violated rules together. *)
Definition verdict (isSentCard : bool) (rs : list rule) : Result () :=
  match rs with
  | [] => Ok ()
  | _ =>
      Throw (QslError ("卡片数据验证失败: "
                       +:+ JsString.join "; " (rule_message isSentCard <$> rs))
                      2001 400)
  end.

(** The record's date falls in the month labelled [key]: it has a date,
    the date parses, and the local month of the instant has that label. *)
Definition dated_in (key : string) (r : record) : bool :=
  match r !! "date" with
  | Some v =>
      truthy (Some v)
      && match newDate v with
         | Some t => bool_decide (JsDate.monthKey tz (Some t) = key)
         | None => false
         end
  | None => false
  end.

(** The label of the loop's pass [i] at the clock reading [now]. *)
Definition pass_label (now i : Z) : string :=
  JsDate.monthKey tz
    (JsDate.setMonth tz (Some now) ((λ m, m - i) <$> JsDate.getMonth tz (Some now))).

(** The bucket of the mode breakdown a record counts in. *)
Definition mode_bucket (r : record) : string :=
  match r !! "mode" with
  | Some (JStr m) =>
      if bool_decide (JsString.toUpperCase m = "") then "OTHER"
      else JsString.toUpperCase m
  | _ => "OTHER"
  end.

Definition tally (modes : gmap string nat) (r : record) : gmap string nat :=
  <[mode_bucket r := (default 0%nat (modes !! mode_bucket r) + 1)%nat]> modes.

(** The monthly series over two collections of records: what the six
    passes push, oldest month first. *)
Definition monthly_of (clock : Z → Z) (sentRecs recvRecs : list record) : Monthly :=
  let passes := [5; 4; 3; 2; 1; 0] in
  {| labels := (λ i, pass_label (clock i) i) <$> passes;
     monthly_sent :=
       (λ i, count (dated_in (pass_label (clock i) i)) sentRecs) <$> passes;
     monthly_pending :=
       (λ i, count (dated_in (pass_label (clock i) i)) sentRecs) <$> passes;
     monthly_received :=
       (λ i, count (dated_in (pass_label (clock i) i)) recvRecs) <$> passes |}.


(** The number of records a mode breakdown accounts for. *)
Definition total (modes : gmap string nat) : nat :=
  map_fold (λ _ n acc, (n + acc)%nat) 0%nat modes.

(** The requests that read. *)
Definition is_get (rq : CosRequest) : Prop :=
  match rq with
  | GetObject _ => True
  | PutObject _ _ => False
  end.

(** *** Running the computations *)

(** Arithmetic and propositional steps do not look at the host. *)
Ltac forget_host :=
  try clear JSON_parse; try clear JSON_stringify; try clear Date_parse;
  try clear tz; try clear CONFIG.

Lemma healthy_next_fault w : healthy w → next_fault w = (None, []).
Proof. unfold healthy, next_fault. by intros ->. Qed.

Lemma healthy_logged rq w : healthy w → healthy (logged rq w).
Proof. done. Qed.

Lemma holds_logged rq w key recs : holds w key recs → holds (logged rq w) key recs.
Proof. done. Qed.

Lemma readFromCos_holds w key recs :
  healthy w → holds w key recs →
  readFromCos key w = (Ok (JArr (JObj <$> recs)), logged (GetObject key) w).
Proof.
  intros Hh Hs. pose proof (healthy_next_fault w Hh) as Hf.
  unfold readFromCos, try_catch, mbind, M_bind, cos_getObject, holds, logged in *.
  rewrite Hf. rewrite Hh.
  destruct (bucket w !! key) as [body|]; simpl.
  - case_bool_decide; subst; simpl; [done|].
    unfold lift. by rewrite Hs.
  - by subst.
Qed.




(** *** The collection store: load and save *)


Lemma writeToCos_array key l w :
  healthy w →
  writeToCos key (JArr l) w =
    (Ok (), mkWorld (<[key := JSON_stringify (JArr l)]> (bucket w))
                    (PutObject key (JSON_stringify (JArr l)) :: requests w) []).
Proof.
  intros Hh. unfold writeToCos, try_catch, cos_putObject. simpl.
  by rewrite (healthy_next_fault w Hh).
Qed.

(** C5.  [writeToCos] rejects a datum that is not an array with the typed
    failure 1002/400 and leaves the world as it was: no request reaches
    the store.  An array is serialized whole and put under the key
    whatever the bucket holds there: the put is the one request issued,
    and once the store serves it the blob is the serialized array. *)
Theorem writeToCos_guard (key : string) (data : value) (w : World) :
  (isArray data = false →
     writeToCos key data w = (Throw (QslError "写入的数据必须是数组" 1002 400), w))
  ∧ (isArray data = true →
       requests (writeToCos key data w).2
         = PutObject key (JSON_stringify data) :: requests w
       ∧ match (next_fault w).1 with
         | None =>
             (writeToCos key data w).1 = Ok ()
             ∧ bucket (writeToCos key data w).2
               = <[key := JSON_stringify data]> (bucket w)
         | Some e =>
             ∃ message,
               (writeToCos key data w).1 = Throw (QslError message 1003 500)
               ∧ bucket (writeToCos key data w).2 = bucket w
         end).
Proof.
  split; intros Ha; unfold writeToCos; rewrite Ha; simpl; [done|].
  unfold try_catch, cos_putObject.
  destruct (next_fault w) as [[e|] fs]; simpl; eauto.
Qed.

Lemma bind_Ok {A B} (a : A) (f : A → Result B) : (Ok a ≫= f) = f a.
Proof. done. Qed.

(** *** Callbacks over a collection of records *)

Lemma filterR_records (f : value → Result bool) (g : record → bool) recs :
  (∀ r, r ∈ recs → f (JObj r) = Ok (g r)) →
  filterR f (JObj <$> recs) = Ok (JObj <$> filter (λ r, g r = true) recs).
Proof.
  induction recs as [|r recs IH]; intros Hf; [done|].
  csimpl. rewrite Hf, IH by set_solver. simpl. rewrite filter_cons.
  destruct (g r); by case_decide.
Qed.

Lemma findIndexR_records (f : value → Result bool) (g : record → bool) recs k :
  (∀ r, r ∈ recs → f (JObj r) = Ok (g r)) →
  findIndexR f (JObj <$> recs) k =
    Ok (match list_find (λ r, g r = true) recs with
        | Some (i, _) => k + Z.of_nat i
        | None => -1
        end).
Proof.
  revert k. induction recs as [|r recs IH]; intros k Hf; [done|].
  csimpl. rewrite Hf by set_solver. simpl. destruct (g r) eqn:Hg.
  - rewrite decide_True by done. simpl. f_equal. lia.
  - rewrite decide_False by (by intros ?). rewrite IH by set_solver.
    destruct (list_find _ recs) as [[i x]|]; simpl; [|done]. f_equal. lia.
Qed.

Lemma forEachR_records {S} (f : S → value → Result S) (g : S → record → S) recs s :
  (∀ s r, r ∈ recs → f s (JObj r) = Ok (g s r)) →
  forEachR f (JObj <$> recs) s = Ok (foldl g s recs).
Proof.
  revert s. induction recs as [|r recs IH]; intros s Hf; [done|].
  csimpl. rewrite Hf by set_solver. simpl. apply IH. intros. apply Hf. set_solver.
Qed.

(** A property of the local that every pass keeps is kept by the loop. *)
Lemma forEachR_invariant {S A} (f : S → A → Result S) (I : S → Prop) l s s' :
  (∀ s x s', f s x = Ok s' → I s → I s') →
  I s → forEachR f l s = Ok s' → I s'.
Proof.
  intros Hf. revert s. induction l as [|x l IH]; intros s Hs Hrun; simpl in Hrun.
  - by simplify_eq.
  - destruct (f s x) as [s1|e] eqn:Hfx; simpl in Hrun; [|done].
    apply (IH s1); [by eapply Hf|done].
Qed.

Lemma filter_all {A} (P : A → Prop) `{!∀ x, Decision (P x)} (l : list A) :
  Forall P l → filter P l = l.
Proof.
  induction 1 as [|x l HP _ IH]; [done|].
  rewrite filter_cons_True by done. by rewrite IH.
Qed.

Lemma filter_same_length {A} (P : A → Prop) `{!∀ x, Decision (P x)} (l : list A) :
  length (filter P l) = length l → Forall P l.
Proof.
  induction l as [|x l IH]; [done|]. rewrite filter_cons.
  case_decide; simpl; intros Hlen.
  - constructor; [done|]. apply IH. lia.
  - pose proof (length_filter P l). lia.
Qed.


(** Equal by [===]: the same primitive on both sides. *)
Lemma strict_eq_true a b : strict_eq a b = true → a = b ∧ primitive a.
Proof.
  destruct a as [[]|], b as [[]|]; simpl; try done.
  - by intros ->%bool_decide_eq_true.
  - by intros ->%Z.eqb_eq.
  - by intros ->%bool_decide_eq_true.
Qed.

Lemma strict_eq_refl a : primitive a → strict_eq a a = true.
Proof.
  destruct a as [[]|]; simpl; try done; intros _.
  - by apply bool_decide_eq_true.
  - apply Z.eqb_refl.
  - by apply bool_decide_eq_true.
Qed.

(** *** Removal by id *)

Lemma deleteCard_run (cardId : option value) (isSentCard : bool) w recs :
  let path := if isSentCard then cfg_sentCards CONFIG else cfg_receivedCards CONFIG in
  truthy cardId = true → healthy w → holds w path recs →
  deleteCard cardId isSentCard w =
    if bool_decide (length (without_id cardId recs) = length recs)
    then (Throw (QslError ("未找到ID为" +:+ toStringOpt cardId +:+ "的卡片") 2003 404),
          logged (GetObject path) w)
    else (Ok true,
          mkWorld (<[path := JSON_stringify (JArr (JObj <$> without_id cardId recs))]>
                     (bucket w))
                  (PutObject path (JSON_stringify (JArr (JObj <$> without_id cardId recs)))
                   :: GetObject path :: requests w) []).
Proof.
  intros path Ht Hh Hs. unfold deleteCard. rewrite Ht. simpl. fold path.
  unfold mbind at 1, M_bind at 1. rewrite (readFromCos_holds w path recs Hh Hs).
  unfold mbind at 1, M_bind at 1, lift at 1. simpl.
  unfold mbind at 1, M_bind at 1, lift at 1.
  rewrite (filterR_records _ (λ r, negb (has_id cardId r))) by done.
  assert (filter (λ r, negb (has_id cardId r) = true) recs = without_id cardId recs)
    as ->.
  { apply list_filter_iff. intros r. by rewrite negb_true_iff. }
  rewrite !length_fmap. case_bool_decide; [done|].
  unfold mbind, M_bind.
  rewrite writeToCos_array by (by apply healthy_logged). done.
Qed.

(** C2.  [deleteCard] with an id that no entry of the collection carries
    fails with the typed failure 2003, whose status is 404; the bucket is
    as it was and the only request that reached the store is the read.
    An empty id is rejected with the typed failure 2002 ("id required")
    in a world that is untouched: nothing was loaded. *)
Theorem deleteCard_absent_id (cardId : option value) (isSentCard : bool) (w : World) :
  let path := if isSentCard then cfg_sentCards CONFIG else cfg_receivedCards CONFIG in
  (truthy cardId = false →
     deleteCard cardId isSentCard w
       = (Throw (QslError "卡片ID不能为空" 2002 400), w))
  ∧ (∀ recs,
       truthy cardId = true → healthy w → holds w path recs →
       Forall (λ r, has_id cardId r = false) recs →
       ∃ message,
         deleteCard cardId isSentCard w
           = (Throw (QslError message 2003 404), logged (GetObject path) w)
         ∧ bucket (logged (GetObject path) w) = bucket w
         ∧ requests (logged (GetObject path) w) = GetObject path :: requests w).
Proof.
  intros path. split.
  - intros Ht. unfold deleteCard. by rewrite Ht.
  - intros recs Ht Hh Hs Hno.
    rewrite (deleteCard_run cardId isSentCard w recs Ht Hh Hs). fold path.
    unfold without_id. rewrite (filter_all _ recs Hno).
    rewrite bool_decide_eq_true_2 by done. eauto.
Qed.

(** *** Upsert *)

(** Only an object passes the validator. *)
Lemma validateCardData_object cardData isSentCard :
  validateCardData cardData isSentCard = Ok () → ∃ card, cardData = JObj card.
Proof.
  destruct cardData; try (by destruct isSentCard); by eauto.
Qed.

Lemma newCardOf_createdAt uuid t1 t2 cardData :
  newCardOf uuid t1 t2 cardData !! "createdAt" = Some (JStr (JsDate.toISOString t1)).
Proof. unfold newCardOf. by rewrite lookup_insert_ne, lookup_insert_eq. Qed.

Lemma newCardOf_updatedAt uuid t1 t2 cardData :
  newCardOf uuid t1 t2 cardData !! "updatedAt" = Some (JStr (JsDate.toISOString t2)).
Proof. unfold newCardOf. by rewrite lookup_insert_eq. Qed.

Lemma newCardOf_other uuid t1 t2 cardData k :
  k ≠ "createdAt" → k ≠ "updatedAt" →
  newCardOf uuid t1 t2 cardData !! k
    = (own_props (Some cardData) ∪ {["id" := JStr uuid]}) !! k.
Proof. intros ??. unfold newCardOf. by rewrite !lookup_insert_ne. Qed.

Lemma newCardOf_id uuid t1 t2 (card : record) :
  newCardOf uuid t1 t2 (JObj card) !! "id"
    = Some (default (JStr uuid) (card !! "id")).
Proof.
  rewrite newCardOf_other by done. simpl.
  rewrite lookup_union. destruct (card !! "id"); by rewrite lookup_singleton_eq.
Qed.

Lemma newCardOf_field uuid t1 t2 (card : record) k :
  k ≠ "createdAt" → k ≠ "updatedAt" → k ≠ "id" →
  newCardOf uuid t1 t2 (JObj card) !! k = card !! k.
Proof.
  intros ???. rewrite newCardOf_other by done. simpl.
  rewrite lookup_union, lookup_singleton_ne by done. by destruct (card !! k).
Qed.

Lemma saveCard_run uuid t1 t2 cardData (isSentCard : bool) w recs :
  let path := if isSentCard then cfg_sentCards CONFIG else cfg_receivedCards CONFIG in
  let stored := newCardOf uuid t1 t2 cardData in
  let text := JSON_stringify (JArr (JObj <$> upsert recs stored)) in
  validateCardData cardData isSentCard = Ok () → healthy w → holds w path recs →
  saveCard uuid t1 t2 cardData isSentCard w =
    (Ok (JObj stored),
     mkWorld (<[path := text]> (bucket w))
             (PutObject path text :: GetObject path :: requests w) []).
Proof.
  intros path stored text Hv Hh Hs. unfold saveCard. rewrite Hv. fold path stored.
  unfold mbind at 1, M_bind at 1, lift at 1.
  unfold mbind at 1, M_bind at 1. rewrite (readFromCos_holds w path recs Hh Hs).
  unfold mbind at 1, M_bind at 1, lift at 1. simpl as_array. cbv iota beta.
  unfold mbind at 1, M_bind at 1, lift at 1.
  rewrite (findIndexR_records _ (has_id (stored !! "id"))) by done.
  cbv iota beta. unfold mbind, M_bind, text, upsert.
  destruct (list_find _ recs) as [[i old]|].
  - rewrite (proj2 (Z.leb_le 0 (0 + Z.of_nat i))) by lia.
    rewrite Z.add_0_l, Nat2Z.id, <- list_fmap_insert.
    by rewrite writeToCos_array by (by apply healthy_logged).
  - change (0 <=? -1) with false. cbv iota.
    change [JObj stored] with (JObj <$> [stored]). rewrite <- fmap_app.
    by rewrite writeToCos_array by (by apply healthy_logged).
Qed.

Lemma upsert_found recs r i old :
  ids_unique recs → recs !! i = Some old → has_id (r !! "id") old = true →
  upsert recs r = <[i := r]> recs.
Proof.
  intros Hu Hi Hid. unfold upsert.
  destruct (list_find _ recs) as [[j x]|] eqn:Hfind.
  - apply list_find_Some in Hfind as (Hj & Hx & _).
    assert (j = i) as ->; [|done].
    apply (Hu j i x old Hj Hi).
    apply strict_eq_true in Hx as [Hx _]. unfold has_id in *. by rewrite Hx.
  - apply list_find_None in Hfind. rewrite Forall_forall in Hfind.
    destruct (Hfind old); [by eapply list_elem_of_lookup_2|done].
Qed.

Lemma upsert_not_found recs r :
  Forall (λ x, has_id (r !! "id") x = false) recs → upsert recs r = recs ++ [r].
Proof.
  intros Hno. unfold upsert.
  destruct (list_find _ recs) as [[j x]|] eqn:Hfind; [|done].
  apply list_find_Some in Hfind as (Hj & Hx & _).
  rewrite Forall_forall in Hno. rewrite Hno in Hx; [done|].
  by eapply list_elem_of_lookup_2.
Qed.

(** The two cases of [upsert], with the place of the record. *)
Lemma upsert_cases recs r :
  (∃ i old, recs !! i = Some old ∧ has_id (r !! "id") old = true
            ∧ (∀ j y, recs !! j = Some y → (j < i)%nat → has_id (r !! "id") y = false)
            ∧ upsert recs r = <[i := r]> recs)
  ∨ (Forall (λ x, has_id (r !! "id") x = false) recs ∧ upsert recs r = recs ++ [r]).
Proof.
  unfold upsert. destruct (list_find _ recs) as [[i old]|] eqn:Hfind.
  - left. apply list_find_Some in Hfind as (Hi & Hx & Hlt).
    exists i, old. split_and!; [done..| |done].
    intros j y Hj Hji. by apply not_true_is_false, (Hlt j y).
  - right. apply list_find_None in Hfind. split; [|done].
    eapply Forall_impl; [exact Hfind|]. intros x Hx. by apply not_true_is_false.
Qed.





Lemma holds_after_put w path text recs reqs :
  reads_back (JArr (JObj <$> recs)) → text = JSON_stringify (JArr (JObj <$> recs)) →
  holds (mkWorld (<[path := text]> (bucket w)) reqs []) path recs.
Proof.
  intros [Hne Hrt] ->. unfold holds. simpl. rewrite lookup_insert_eq.
  by rewrite bool_decide_eq_false_2.
Qed.


(** C10, as amended.  When the payload's id is that of an existing entry,
    [saveCard] puts in its place a record made of the payload and two
    clock readings only: [createdAt] is the first reading, whatever the
    old entry had, and [updatedAt] the second, so the two are equal when
    the readings are; every other field is the payload's, and a field
    that only the old entry had is gone. *)
Theorem saveCard_replaces_entry (uuid : string) (t_created t_updated : Z)
    (card : record) (isSentCard : bool) (w : World) (recs : list record)
    (i : nat) (old : record) (idv : value) :
  let path := if isSentCard then cfg_sentCards CONFIG else cfg_receivedCards CONFIG in
  let stored := newCardOf uuid t_created t_updated (JObj card) in
  validateCardData (JObj card) isSentCard = Ok () →
  healthy w → holds w path recs → ids_unique recs →
  card !! "id" = Some idv →
  recs !! i = Some old → has_id (Some idv) old = true →
  ∃ w',
    saveCard uuid t_created t_updated (JObj card) isSentCard w = (Ok (JObj stored), w')
    ∧ bucket w'
      = <[path := JSON_stringify (JArr (JObj <$> <[i := stored]> recs))]> (bucket w)
    ∧ stored !! "createdAt" = Some (JStr (JsDate.toISOString t_created))
    ∧ stored !! "updatedAt" = Some (JStr (JsDate.toISOString t_updated))
    ∧ (t_created = t_updated → stored !! "createdAt" = stored !! "updatedAt")
    ∧ (∀ k, k ≠ "createdAt" → k ≠ "updatedAt" → stored !! k = card !! k)
    ∧ (∀ k, k ≠ "createdAt" → k ≠ "updatedAt" → card !! k = None →
         stored !! k = None).
Proof.
  intros path stored Hv Hh Hs Hu Hcard Hi Hold.
  pose proof (newCardOf_id uuid t_created t_updated card) as Hid. fold stored in Hid.
  assert (stored !! "id" = card !! "id") as Hsame by (by rewrite Hid, Hcard).
  assert (∀ k, k ≠ "createdAt" → k ≠ "updatedAt" → stored !! k = card !! k) as Hk.
  { intros k ??. destruct (decide (k = "id")) as [->|]; [done|].
    by apply newCardOf_field. }
  eexists. split_and!.
  - by apply saveCard_run.
  - simpl. fold path stored. rewrite (upsert_found recs stored i old); [done..|].
    by rewrite Hsame, Hcard.
  - apply newCardOf_createdAt.
  - apply newCardOf_updatedAt.
  - intros <-. unfold stored. by rewrite newCardOf_createdAt, newCardOf_updatedAt.
  - done.
  - intros k ?? Hnone. by rewrite Hk.
Qed.


(** *** The validator *)

Lemma blank_typed v : text_or_absent v → blank v = Ok (negb (nonblank_text v)).
Proof. destruct v as [[]|]; simpl; try done. intros _. by rewrite negb_involutive. Qed.

Lemma blank_untyped v :
  ¬ text_or_absent v → blank v = Throw TypeError ∧ nonblank_text v = false.
Proof. destruct v as [[]|]; simpl; forget_host; naive_solver. Qed.

Lemma includes_one_of l v : includes l v = one_of l v.
Proof.
  unfold includes, one_of. destruct v as [v|].
  - destruct v; try (by induction l).
    induction l as [|x l IH]; simpl in *; [done|]. rewrite IH.
    apply eq_true_iff_eq. rewrite orb_true_iff, !bool_decide_eq_true.
    rewrite elem_of_cons. forget_host. intuition congruence.
  - by induction l.
Qed.

Lemma date_regex_test_text v : date_regex_test v = date_text v.
Proof.
  unfold date_regex_test, date_text. generalize (JsString.chars (toStringOpt v)).
  intros cs. do 10 (destruct cs as [|? cs]; [done|]).
  destruct cs; [|done]. simpl.
  repeat match goal with
         | |- context [JsString.is_digit ?c] => destruct (JsString.is_digit c)
         | |- context [bool_decide (?c = "-"%char)] =>
             destruct (bool_decide (c = "-"%char))
         end; done.
Qed.

Lemma violations_nonempty card isSentCard r :
  r ∈ all_rules → satisfies card isSentCard r = false →
  violations card isSentCard ≠ [].
Proof.
  intros Hr Hs Hnil.
  assert (r ∈ violations card isSentCard) as Hin by (by apply list_elem_of_filter).
  rewrite Hnil in Hin. by apply not_elem_of_nil in Hin.
Qed.

(** The pushes of the validator, over any wording of the messages. *)
Lemma errors_collected (msg : bool → rule → string)
    (s1 s2 s3 s4 s5 ps pr t isSentCard : bool) :
  push_if (negb isSentCard && t && negb pr) (msg false StatusAllowed)
    (push_if (isSentCard && negb ps) (msg true StatusAllowed)
       (push_if (negb s5) (msg isSentCard CardTypeKnown)
          (push_if (negb s4) (msg isSentCard ModeGiven)
             (push_if (negb s3) (msg isSentCard DateFormat)
                (push_if (negb s2) (msg isSentCard MyCallSignGiven)
                   (push_if (negb s1) (msg isSentCard CallSignGiven) []))))))
  = msg isSentCard <$>
      filter (λ r, match r with
                   | CallSignGiven => s1
                   | MyCallSignGiven => s2
                   | DateFormat => s3
                   | ModeGiven => s4
                   | CardTypeKnown => s5
                   | StatusAllowed => if isSentCard then ps else negb t || pr
                   end = false) all_rules.
Proof.
  destruct s1, s2, s3, s4, s5, isSentCard, ps, pr, t; reflexivity.
Qed.

Lemma validateCardData_typed card isSentCard :
  texts_typed card →
  validateCardData (JObj card) isSentCard
    = verdict isSentCard (violations card isSentCard).
Proof.
  intros (H1 & H2 & H3). unfold validateCardData, mbind, Result_bind. simpl get.
  cbv beta iota.
  rewrite (blank_typed _ H1), (blank_typed _ H2), (blank_typed _ H3).
  cbv beta iota zeta. rewrite date_regex_test_text, !includes_one_of.
  rewrite (errors_collected rule_message).
  change (filter _ all_rules) with (violations card isSentCard).
  by destruct (violations card isSentCard).
Qed.

Lemma validateCardData_untyped card isSentCard :
  ¬ texts_typed card →
  validateCardData (JObj card) isSentCard = Throw TypeError
  ∧ violations card isSentCard ≠ [].
Proof.
  intros Hnot. unfold validateCardData, mbind, Result_bind. simpl get. cbv beta iota.
  destruct (decide (text_or_absent (card !! "callSign"))) as [H1|H1];
    [|apply blank_untyped in H1 as [-> H1]; split; [done|];
      apply (violations_nonempty _ _ CallSignGiven); [by repeat constructor|done]].
  rewrite (blank_typed _ H1). cbv beta iota.
  destruct (decide (text_or_absent (card !! "myCallSign"))) as [H2|H2];
    [|apply blank_untyped in H2 as [-> H2]; split; [done|];
      apply (violations_nonempty _ _ MyCallSignGiven); [by repeat constructor|done]].
  rewrite (blank_typed _ H2). cbv beta iota.
  destruct (decide (text_or_absent (card !! "mode"))) as [H3|H3];
    [|apply blank_untyped in H3 as [-> H3]; split; [done|];
      apply (violations_nonempty _ _ ModeGiven); [by repeat constructor|done]].
  destruct Hnot. by split_and!.
Qed.










(** *** The aggregator: stats *)








Lemma reads_of_both w sentRecs recvRecs :
  healthy w →
  holds w (cfg_sentCards CONFIG) sentRecs →
  holds w (cfg_receivedCards CONFIG) recvRecs →
  let w1 := logged (GetObject (cfg_sentCards CONFIG)) w in
  readFromCos (cfg_sentCards CONFIG) w = (Ok (JArr (JObj <$> sentRecs)), w1)
  ∧ readFromCos (cfg_receivedCards CONFIG) w1
    = (Ok (JArr (JObj <$> recvRecs)), logged (GetObject (cfg_receivedCards CONFIG)) w1).
Proof.
  intros Hh Hs Hr w1. split; by apply readFromCos_holds.
Qed.



(** *** The aggregator: chart *)

Lemma in_month_record key (r : record) : in_month key (JObj r) = Ok (dated_in key r).
Proof.
  unfold in_month, dated_in. simpl get. rewrite bind_Ok.
  destruct (r !! "date") as [v|]; [|done].
  destruct (truthy (Some v)); [|done]. simpl.
  destruct (newDate v); [|done]. by rewrite bool_decide_eq_false_2.
Qed.

Lemma month_pass_records (sentRecs recvRecs : list record) now i acc :
  month_pass (JArr (JObj <$> sentRecs)) (JArr (JObj <$> recvRecs)) now i acc
  = Ok {| labels := labels acc ++ [pass_label now i];
          monthly_sent :=
            monthly_sent acc ++ [count (dated_in (pass_label now i)) sentRecs];
          monthly_pending :=
            monthly_pending acc ++ [count (dated_in (pass_label now i)) sentRecs];
          monthly_received :=
            monthly_received acc ++ [count (dated_in (pass_label now i)) recvRecs] |}.
Proof.
  unfold month_pass, pass_label. cbv zeta.
  set (key := JsDate.monthKey tz _). clearbody key.
  unfold as_array. rewrite !bind_Ok.
  rewrite (filterR_records (in_month key) (dated_in key) sentRecs)
    by (intros; apply in_month_record).
  rewrite !bind_Ok.
  rewrite (filterR_records (in_month key) (dated_in key) recvRecs)
    by (intros; apply in_month_record).
  rewrite !bind_Ok. unfold count. by rewrite !length_fmap.
Qed.

(** The pass pushes the same count on both series. *)
Lemma month_pass_pending sentCards receivedCards now i acc acc' :
  month_pass sentCards receivedCards now i acc = Ok acc' →
  monthly_pending acc = monthly_sent acc →
  monthly_pending acc' = monthly_sent acc'.
Proof.
  unfold month_pass. cbv zeta. set (key := JsDate.monthKey tz _). clearbody key.
  unfold mbind, Result_bind. intros Hrun Hacc.
  destruct (as_array sentCards) as [sentArray|]; [|done].
  destruct (filterR (in_month key) sentArray) as [s|]; [|done].
  destruct (as_array receivedCards) as [receivedArray|]; [|done].
  destruct (filterR (in_month key) receivedArray) as [r|]; [|done].
  injection Hrun as <-. simpl. by rewrite Hacc.
Qed.

Lemma mode_callback (modes : gmap string nat) (r : record) :
  mode_typed r →
  (mode ← get (JObj r) "mode";
   upper ← match mode with
           | None | Some JNull => Ok ""
           | _ => m ← as_string mode; Ok (JsString.toUpperCase m)
           end;
   let mode := if bool_decide (upper = "") then "OTHER" else upper in
   Ok (<[mode := (default 0%nat (modes !! mode) + 1)%nat]> modes))
  = Ok (tally modes r).
Proof.
  unfold mode_typed, tally, mode_bucket. simpl get. rewrite bind_Ok.
  destruct (r !! "mode") as [[]|]; simpl; try done.
Qed.

Lemma getChartData_run clock w sentRecs recvRecs :
  healthy w →
  holds w (cfg_sentCards CONFIG) sentRecs →
  holds w (cfg_receivedCards CONFIG) recvRecs →
  Forall mode_typed (sentRecs ++ recvRecs) →
  getChartData clock w =
    (Ok {| monthly := monthly_of clock sentRecs recvRecs;
           modes := foldl tally ∅ (sentRecs ++ recvRecs) |},
     logged (GetObject (cfg_receivedCards CONFIG))
            (logged (GetObject (cfg_sentCards CONFIG)) w)).
Proof.
  intros Hh Hs Hr Hmode. rewrite Forall_forall in Hmode.
  destruct (reads_of_both w sentRecs recvRecs Hh Hs Hr) as [Hread1 Hread2].
  unfold getChartData. unfold mbind at 1, M_bind at 1. rewrite Hread1.
  unfold mbind at 1, M_bind at 1. rewrite Hread2.
  unfold lift. f_equal. cbn [forEachR].
  repeat (rewrite month_pass_records, bind_Ok).
  rewrite !bind_Ok. unfold spread. rewrite !bind_Ok, <- fmap_app.
  rewrite (forEachR_records _ tally)
    by (intros modes r Hin; by apply mode_callback, Hmode).
  by rewrite bind_Ok.
Qed.

Lemma getChartData_monthly clock w chart w' :
  getChartData clock w = (Ok chart, w') →
  ∃ sentCards receivedCards,
    forEachR (λ acc i, month_pass sentCards receivedCards (clock i) i acc)
             [5; 4; 3; 2; 1; 0] (mkMonthly [] [] [] [])
    = Ok (monthly chart).
Proof.
  unfold getChartData. unfold mbind at 1, M_bind at 1.
  destruct (readFromCos _ w) as [[sentCards|] w1]; [|done].
  unfold mbind at 1, M_bind at 1.
  destruct (readFromCos _ w1) as [[receivedCards|] w2]; [|done].
  unfold lift. intros Hrun. exists sentCards, receivedCards.
  unfold mbind, Result_bind in Hrun.
  destruct (forEachR _ [5; 4; 3; 2; 1; 0] _) as [months|]; [|done].
  destruct (spread sentCards); [|done]. destruct (spread receivedCards); [|done].
  destruct (forEachR _ _ ∅); [|done]. by simplify_eq.
Qed.

(** C9.  Whatever the two collections are, when [getChartData] answers,
    the pending series of its monthly chart is the sent series, entry by
    entry: both come from the same filter of the sent collection, with no
    look at the status.  And it does answer, with six entries in each
    series, over collections of records whose modes are strings where
    they are given. *)
Theorem getChartData_pending_is_sent (clock : Z → Z) (w : World) :
  (∀ chart w',
     getChartData clock w = (Ok chart, w') →
     monthly_pending (monthly chart) = monthly_sent (monthly chart))
  ∧ (∀ sentRecs recvRecs,
       healthy w →
       holds w (cfg_sentCards CONFIG) sentRecs →
       holds w (cfg_receivedCards CONFIG) recvRecs →
       Forall mode_typed (sentRecs ++ recvRecs) →
       ∃ chart w',
         getChartData clock w = (Ok chart, w')
         ∧ monthly_pending (monthly chart) = monthly_sent (monthly chart)
         ∧ length (monthly_sent (monthly chart)) = 6%nat
         ∧ length (monthly_pending (monthly chart)) = 6%nat).
Proof.
  split.
  - intros chart w' Hrun.
    apply getChartData_monthly in Hrun as (sentCards & receivedCards & Hrun).
    apply (forEachR_invariant
             (λ acc i, month_pass sentCards receivedCards (clock i) i acc)
             (λ acc, monthly_pending acc = monthly_sent acc)
             [5; 4; 3; 2; 1; 0] (mkMonthly [] [] [] []) (monthly chart));
      [|done|done].
    intros acc i acc' Hpass Hacc. by eapply month_pass_pending.
  - intros sentRecs recvRecs Hh Hs Hr Hmode. eexists _, _.
    split; [by apply getChartData_run|]. done.
Qed.

(** *** Further properties of the collection store *)

Lemma readFromCos_failure_shape (key : string) (w : World) :
  match (readFromCos key w).1 with
  | Ok _ => True
  | Throw e =>
      ∃ message code status,
        e = QslError message code status
        ∧ (code, status)
          ∈ [(1001, 403); (1002, 403); (1003, 400); (1004, 400); (1005, 500)]
  end.
Proof.
  unfold readFromCos, try_catch, mbind, M_bind, cos_getObject, mret, M_ret, throw.
  destruct (next_fault w) as [[f|] fs]; simpl.
  - repeat (case_bool_decide; simpl;
            [first [exact I|eexists _, _, _; split; [reflexivity|by repeat constructor]]|]).
    eexists _, _, _. split; [reflexivity|by repeat constructor].
  - destruct (bucket w !! key) as [body|]; simpl; [|done].
    case_bool_decide; simpl; [done|]. unfold lift.
    destruct (JSON_parse _); simpl; [|done].
    eexists _, _, _. split; [reflexivity|by repeat constructor].
Qed.

(** Whatever the store answers, a load that fails fails with one of the
    five typed failures of [readFromCos]: the store's own error and the
    parser's [SyntaxError] never reach the caller. *)
Theorem readFromCos_only_typed_failures (key : string) (w : World) (e : exn) :
  (readFromCos key w).1 = Throw e →
  ∃ message code status,
    e = QslError message code status
    ∧ (code, status) ∈ [(1001, 403); (1002, 403); (1003, 400); (1004, 400); (1005, 500)].
Proof.
  intros Hrun. pose proof (readFromCos_failure_shape key w) as Hshape.
  rewrite Hrun in Hshape. destruct Hshape as (message & code & status & He & Hin).
  by exists message, code, status.
Qed.

Lemma readFromCos_world (key : string) (w : World) :
  (readFromCos key w).2
    = mkWorld (bucket w) (GetObject key :: requests w) (next_fault w).2.
Proof.
  unfold readFromCos, try_catch, mbind, M_bind, cos_getObject, mret, M_ret, throw.
  destruct (next_fault w) as [[f|] fs]; simpl.
  - repeat (case_bool_decide; simpl; [done|]). done.
  - destruct (bucket w !! key) as [body|]; simpl; [|done].
    case_bool_decide; simpl; [done|]. unfold lift.
    by destruct (JSON_parse _).
Qed.

Lemma readFromCos_effect (key : string) (w : World) :
  bucket (readFromCos key w).2 = bucket w
  ∧ requests (readFromCos key w).2 = GetObject key :: requests w.
Proof. by rewrite readFromCos_world. Qed.

(** A load never changes the bucket, whatever it returns, and it issues
    exactly one request, the get of its key. *)
Theorem readFromCos_leaves_bucket (key : string) (w : World) :
  bucket (readFromCos key w).2 = bucket w
  ∧ requests (readFromCos key w).2 = GetObject key :: requests w.
Proof.
  pose proof (readFromCos_world key w) as Hw. split.
  - by rewrite Hw.
  - by rewrite Hw.
Qed.

(** A save touches no blob but the one under its key, and when it fails it
    fails with the typed failure 1002/400 (not an array) or 1003/500 (the
    store refused), in both cases leaving every blob as it was. *)
Theorem writeToCos_frame (key : string) (data : value) (w : World) :
  (∀ k, k ≠ key → bucket (writeToCos key data w).2 !! k = bucket w !! k)
  ∧ (∀ e, (writeToCos key data w).1 = Throw e →
       bucket (writeToCos key data w).2 = bucket w
       ∧ ∃ message code status,
           e = QslError message code status
           ∧ (code, status) ∈ [(1002, 400); (1003, 500)]).
Proof.
  unfold writeToCos, try_catch, cos_putObject.
  destruct (isArray data); simpl.
  - destruct (next_fault w) as [[f|] fs]; simpl.
    + split; [done|]. intros e He. simplify_eq. split; [done|].
      eexists _, _, _. split; [done|]. by repeat constructor.
    + split; [|done]. intros k Hk. by rewrite lookup_insert_ne.
  - split; [done|]. intros e He. unfold throw in He. simplify_eq. split; [done|].
    eexists _, _, _. split; [done|]. by repeat constructor.
Qed.


(** *** Further properties of the validator and of the card operations *)

Lemma validateCardData_passes card isSentCard :
  validateCardData (JObj card) isSentCard = Ok () ↔ violations card isSentCard = [].
Proof.
  destruct (decide (texts_typed card)) as [Ht|Ht].
  - rewrite (validateCardData_typed _ _ Ht). by destruct (violations card isSentCard).
  - by destruct (validateCardData_untyped card isSentCard Ht) as [-> Hne].
Qed.

Lemma violations_nil_satisfies card isSentCard r :
  violations card isSentCard = [] → r ∈ all_rules → satisfies card isSentCard r = true.
Proof.
  intros Hnil Hr. destruct (satisfies card isSentCard r) eqn:Hs; [done|].
  by destruct (violations_nonempty card isSentCard r).
Qed.

(** No record passes the validator in both roles: the sent role wants the
    status "pending" or "sent", which the received role refuses. *)
Theorem validateCardData_roles_disjoint (cardData : value) :
  validateCardData cardData true = Ok () → validateCardData cardData false ≠ Ok ().
Proof.
  intros Hsent Hreceived.
  destruct (validateCardData_object _ _ Hsent) as [card ->].
  apply validateCardData_passes in Hsent, Hreceived.
  pose proof (violations_nil_satisfies card true StatusAllowed Hsent) as Hs.
  pose proof (violations_nil_satisfies card false StatusAllowed Hreceived) as Hr.
  simpl in Hs, Hr. unfold one_of in *.
  destruct (card !! "status") as [[| | |s| |]|];
    try (by (apply Hs || discriminate Hs); repeat constructor).
  all: try (by specialize (Hs ltac:(repeat constructor))).
  specialize (Hs ltac:(repeat constructor)). specialize (Hr ltac:(repeat constructor)).
  apply bool_decide_eq_true in Hs. simpl in Hr.
  apply elem_of_cons in Hs as [->|Hs]; [done|].
  apply elem_of_cons in Hs as [->|Hs]; [done|]. by apply elem_of_nil in Hs.
Qed.

(** A record the validator refuses never reaches the store: [saveCard]
    fails with the validator's failure in a world that is untouched. *)
Theorem saveCard_invalid_no_store_access (uuid : string) (t_created t_updated : Z)
    (cardData : value) (isSentCard : bool) (w : World) (e : exn) :
  validateCardData cardData isSentCard = Throw e →
  saveCard uuid t_created t_updated cardData isSentCard w = (Throw e, w).
Proof. intros Hv. unfold saveCard. by rewrite Hv. Qed.

(** The stored record is the payload with an id and the two timestamps, and
    nothing else: its fields are the payload's fields and those three, every
    payload field but the timestamps keeps its value, and a [createdAt] or
    [updatedAt] that the payload carries is overwritten by the clock. *)
Theorem saveCard_stored_fields (uuid : string) (t_created t_updated : Z)
    (card : record) (isSentCard : bool) (w : World) (recs : list record) :
  let path := if isSentCard then cfg_sentCards CONFIG else cfg_receivedCards CONFIG in
  validateCardData (JObj card) isSentCard = Ok () →
  healthy w → holds w path recs →
  ∃ stored w',
    saveCard uuid t_created t_updated (JObj card) isSentCard w = (Ok (JObj stored), w')
    ∧ dom stored = dom card ∪ {["id"; "createdAt"; "updatedAt"]}
    ∧ (∀ k v, k ≠ "createdAt" → k ≠ "updatedAt" → card !! k = Some v →
         stored !! k = Some v)
    ∧ stored !! "createdAt" = Some (JStr (JsDate.toISOString t_created))
    ∧ stored !! "updatedAt" = Some (JStr (JsDate.toISOString t_updated)).
Proof.
  intros path Hv Hh Hs. eexists _, _. split; [by apply saveCard_run|].
  split_and!.
  - unfold newCardOf. simpl own_props. rewrite !dom_insert_L, dom_union_L, dom_singleton_L.
    apply set_eq. intros k. rewrite !elem_of_union, !elem_of_singleton.
    forget_host. tauto.
  - intros k v Hc Hu Hk. destruct (decide (k = "id")) as [->|Hid].
    + by rewrite newCardOf_id, Hk.
    + by rewrite newCardOf_field.
  - apply newCardOf_createdAt.
  - apply newCardOf_updatedAt.
Qed.

(** A delete that succeeds writes the collection without any entry of the
    given id: every entry with that id is gone, not only the first, every
    other entry is kept, in the order it had, and the next load returns
    that collection when the written document reads back. *)
Theorem deleteCard_removes_all_with_id (cardId : option value) (isSentCard : bool)
    (w : World) (recs : list record) :
  let path := if isSentCard then cfg_sentCards CONFIG else cfg_receivedCards CONFIG in
  truthy cardId = true → healthy w → holds w path recs →
  Exists (λ r, has_id cardId r = true) recs →
  ∃ kept w',
    deleteCard cardId isSentCard w = (Ok true, w')
    ∧ bucket w' = <[path := JSON_stringify (JArr (JObj <$> kept))]> (bucket w)
    ∧ Forall (λ r, has_id cardId r = false) kept
    ∧ (∀ r, r ∈ recs → has_id cardId r = false → r ∈ kept)
    ∧ kept `sublist_of` recs
    ∧ (length kept < length recs)%nat
    ∧ (reads_back (JArr (JObj <$> kept)) →
         (readFromCos path w').1 = Ok (JArr (JObj <$> kept))).
Proof.
  intros path Ht Hh Hs Hex. exists (without_id cardId recs). eexists.
  assert (length (without_id cardId recs) < length recs)%nat as Hlen.
  { apply Exists_exists in Hex as (r & Hr & Hid).
    apply (length_filter_lt _ _ r); [done|]. by rewrite Hid. }
  rewrite (deleteCard_run cardId isSentCard w recs Ht Hh Hs). fold path.
  rewrite bool_decide_eq_false_2 by lia. split_and!; [done|done|..|done|].
  - apply Forall_forall. intros r Hr. by apply list_elem_of_filter in Hr as [Hr _].
  - intros r Hr Hid. by apply list_elem_of_filter.
  - apply sublist_filter.
  - intros Hrb. erewrite readFromCos_holds; [done|done|]. by apply holds_after_put.
Qed.

(** Save and delete undo each other.  After a record is saved under an id
    that no entry had (a truthy primitive), deleting that id succeeds and
    writes back the collection as it was before the save. *)
Theorem saveCard_then_deleteCard (uuid : string) (t_created t_updated : Z)
    (card : record) (isSentCard : bool) (w : World) (recs : list record) :
  let path := if isSentCard then cfg_sentCards CONFIG else cfg_receivedCards CONFIG in
  let stored := newCardOf uuid t_created t_updated (JObj card) in
  validateCardData (JObj card) isSentCard = Ok () →
  healthy w → holds w path recs →
  Forall (λ r, has_id (stored !! "id") r = false) recs →
  primitive (stored !! "id") → truthy (stored !! "id") = true →
  reads_back (JArr (JObj <$> recs ++ [stored])) →
  ∃ w1 w2,
    saveCard uuid t_created t_updated (JObj card) isSentCard w = (Ok (JObj stored), w1)
    ∧ deleteCard (stored !! "id") isSentCard w1 = (Ok true, w2)
    ∧ bucket w2 !! path = Some (JSON_stringify (JArr (JObj <$> recs))).
Proof.
  intros path stored Hv Hh Hs Hnew Hprim Htruthy Hrb.
  pose proof (saveCard_run uuid t_created t_updated (JObj card) isSentCard w recs
                Hv Hh Hs) as Hsave.
  fold path stored in Hsave. rewrite (upsert_not_found recs stored Hnew) in Hsave.
  eexists _, _. split; [exact Hsave|].
  assert (without_id (stored !! "id") (recs ++ [stored]) = recs) as Hback.
  { unfold without_id. rewrite filter_app, (filter_all _ recs Hnew).
    rewrite filter_cons_False, filter_nil, app_nil_r; [done|].
    unfold has_id. by rewrite strict_eq_refl. }
  rewrite (deleteCard_run (stored !! "id") isSentCard _ (recs ++ [stored]) Htruthy);
    [|done|by apply holds_after_put].
  fold path. rewrite Hback, bool_decide_eq_false_2 by (rewrite length_app; simpl; lia).
  split; [done|]. simpl. by rewrite lookup_insert_eq.
Qed.

(** A record saved under a falsy id cannot be deleted: the validator does
    not look at the id, so [saveCard] stores a payload whose id is the empty
    string under that id, and [deleteCard] refuses the empty string before
    it loads anything. *)
Theorem saveCard_empty_id_undeletable (uuid : string) (t_created t_updated : Z)
    (card : record) (isSentCard : bool) (w : World) (recs : list record) :
  let path := if isSentCard then cfg_sentCards CONFIG else cfg_receivedCards CONFIG in
  validateCardData (JObj card) isSentCard = Ok () →
  healthy w → holds w path recs →
  card !! "id" = Some (JStr "") →
  ∃ stored w1,
    saveCard uuid t_created t_updated (JObj card) isSentCard w = (Ok (JObj stored), w1)
    ∧ stored !! "id" = Some (JStr "")
    ∧ bucket w1 !! path = Some (JSON_stringify (JArr (JObj <$> upsert recs stored)))
    ∧ stored ∈ upsert recs stored
    ∧ deleteCard (stored !! "id") isSentCard w1
      = (Throw (QslError "卡片ID不能为空" 2002 400), w1).
Proof.
  intros path Hv Hh Hs Hid. eexists _, _. split; [by apply saveCard_run|].
  rewrite newCardOf_id, Hid. split_and!; [done| | |done].
  - simpl. by rewrite lookup_insert_eq.
  - destruct (upsert_cases recs (newCardOf uuid t_created t_updated (JObj card)))
      as [(i & old & Hi & _ & _ & ->)|[_ ->]].
    + eapply list_elem_of_lookup_2. apply list_lookup_insert_eq.
      by eapply lookup_lt_Some.
    + apply elem_of_app. right. by left.
Qed.


(** *** Further properties of the aggregator *)

Lemma filterR_length {A} (f : A → Result bool) (l l' : list A) :
  filterR f l = Ok l' → (length l' ≤ length l)%nat.
Proof.
  revert l'. induction l as [|x l IH]; intros l' Hrun; simpl in Hrun.
  - by simplify_eq.
  - destruct (f x) as [b|]; simpl in Hrun; [|done].
    destruct (filterR f l) as [rest|]; simpl in Hrun; [|done].
    specialize (IH rest eq_refl). destruct b; simplify_eq; simpl; lia.
Qed.

Lemma spread_length v l : spread v = Ok l → length l = length_of v.
Proof.
  destruct v; simpl; intros Hs; simplify_eq; [|done].
  rewrite length_fmap. induction s as [|c s IH]; simpl; by f_equal.
Qed.

Lemma countries_bound (f : gset string → value → Result (gset string)) l seen seen' :
  (∀ s x s', f s x = Ok s' → (size s' ≤ S (size s))%nat) →
  forEachR f l seen = Ok seen' → (size seen' ≤ size seen + length l)%nat.
Proof.
  intros Hf. revert seen. induction l as [|x l IH]; intros seen Hrun; simpl in Hrun.
  - simplify_eq. lia.
  - destruct (f seen x) as [s1|] eqn:Hfx; simpl in Hrun; [|done].
    specialize (IH s1 Hrun). specialize (Hf _ _ _ Hfx). simpl. lia.
Qed.

(** The aggregators only read: whatever [getStats] and [getChartData]
    return, the bucket is as it was, and the requests they issued are gets. *)
Theorem aggregators_read_only (r1 r2 r3 : Z) (clock : Z → Z) (w : World) :
  (bucket (getStats r1 r2 r3 w).2 = bucket w
   ∧ ∃ gets, requests (getStats r1 r2 r3 w).2 = gets ++ requests w ∧ Forall is_get gets)
  ∧ (bucket (getChartData clock w).2 = bucket w
     ∧ ∃ gets, requests (getChartData clock w).2 = gets ++ requests w
               ∧ Forall is_get gets).
Proof.
  assert (∀ A (k : value → value → Result A),
            let run := (sentCards ← readFromCos (cfg_sentCards CONFIG);
                        receivedCards ← readFromCos (cfg_receivedCards CONFIG);
                        lift (k sentCards receivedCards)) w in
            bucket run.2 = bucket w
            ∧ ∃ gets, requests run.2 = gets ++ requests w ∧ Forall is_get gets) as Hboth.
  { intros A k. unfold mbind, M_bind, lift.
    pose proof (readFromCos_effect (cfg_sentCards CONFIG) w) as [Hb1 Hr1].
    destruct (readFromCos (cfg_sentCards CONFIG) w) as [[sentCards|e1] w1];
      simpl in Hb1, Hr1.
    - pose proof (readFromCos_effect (cfg_receivedCards CONFIG) w1) as [Hb2 Hr2].
      destruct (readFromCos (cfg_receivedCards CONFIG) w1) as [[receivedCards|e2] w2];
        simpl in *.
      + split; [congruence|]. eexists [_; _]. rewrite Hr2, Hr1. by repeat constructor.
      + split; [congruence|]. eexists [_; _]. rewrite Hr2, Hr1. by repeat constructor.
    - simpl. split; [done|]. eexists [_]. rewrite Hr1. by repeat constructor. }
  split; apply Hboth.
Qed.

(** The counts of [getStats] are bounded by the sizes of the collections,
    whatever the blobs hold: when it answers, pending ≤ sent, and the eye
    contacts and the countries are each at most sent + received. *)
Theorem getStats_bounds (r1 r2 r3 : Z) (w w' : World) (stats : Stats) :
  getStats r1 r2 r3 w = (Ok stats, w') →
  (pending stats ≤ sent stats)%nat
  ∧ (eyeQso stats ≤ sent stats + received stats)%nat
  ∧ (countries stats ≤ sent stats + received stats)%nat.
Proof.
  unfold getStats. unfold mbind at 1, M_bind at 1.
  destruct (readFromCos _ w) as [[sentCards|] w1]; [|done].
  unfold mbind at 1, M_bind at 1.
  destruct (readFromCos _ w1) as [[receivedCards|] w2]; [|done].
  unfold lift. intros Hrun. injection Hrun as Hrun _. revert Hrun.
  destruct (spread sentCards) as [s|] eqn:Hs; [|done].
  destruct (spread receivedCards) as [r|] eqn:Hr; [|done].
  rewrite !bind_Ok.
  destruct (forEachR _ (s ++ r) ∅) as [seen|] eqn:Hseen; [|done].
  rewrite !bind_Ok.
  destruct (filterR _ (s ++ r)) as [eye|] eqn:Heye; [|done].
  rewrite !bind_Ok.
  destruct (as_array sentCards) as [sentArray|] eqn:Ha; [|done].
  rewrite !bind_Ok.
  destruct (filterR _ sentArray) as [pendingCards|] eqn:Hp; [|done].
  rewrite !bind_Ok. intros Hstats. simplify_eq. simpl.
  apply spread_length in Hs, Hr. rewrite <- Hs, <- Hr.
  apply filterR_length in Heye, Hp. rewrite length_app in Heye.
  destruct sentCards; simplify_eq/=.
  apply countries_bound in Hseen.
  - rewrite size_empty, length_app in Hseen. simpl in Hseen. split_and!; lia.
  - intros seen0 x seen1. unfold mbind, Result_bind.
    destruct (get x "callSign") as [callSign|]; [|done].
    destruct (truthy callSign); [|intros; simplify_eq; lia].
    destruct (as_string callSign); [|done]. intros; simplify_eq.
    rewrite size_union_alt, size_singleton.
    pose proof (subseteq_size (seen0 ∖ {[JsString.toUpperCase (JsString.prefix 2 a)]})
                  seen0) as Hsub.
    assert (seen0 ∖ {[JsString.toUpperCase (JsString.prefix 2 a)]} ⊆ seen0) as Hin
      by (intros y Hy; by apply elem_of_difference in Hy as [Hy _]).
    specialize (Hsub Hin). lia.
Qed.

Lemma forEachR_lengths sentCards receivedCards (clock : Z → Z) passes acc acc' :
  forEachR (λ acc i, month_pass sentCards receivedCards (clock i) i acc) passes acc
    = Ok acc' →
  length (labels acc') = (length (labels acc) + length passes)%nat
  ∧ length (monthly_sent acc') = (length (monthly_sent acc) + length passes)%nat
  ∧ length (monthly_pending acc') = (length (monthly_pending acc) + length passes)%nat
  ∧ length (monthly_received acc')
    = (length (monthly_received acc) + length passes)%nat.
Proof.
  revert acc. induction passes as [|i passes IH]; intros acc Hrun; simpl in Hrun.
  - simplify_eq. simpl. lia.
  - destruct (month_pass _ _ _ _ acc) as [acc1|] eqn:Hpass; simpl in Hrun; [|done].
    destruct (IH acc1 Hrun) as (H1 & H2 & H3 & H4).
    rewrite H1, H2, H3, H4. clear Hrun IH H1 H2 H3 H4. revert Hpass.
    unfold month_pass. cbv zeta. set (key := JsDate.monthKey tz _). clearbody key.
    unfold mbind, Result_bind.
    destruct (as_array sentCards) as [sentArray|]; [|done].
    destruct (filterR (in_month key) sentArray); [|done].
    destruct (as_array receivedCards) as [receivedArray|]; [|done].
    destruct (filterR (in_month key) receivedArray); [|done].
    intros Hpass. simplify_eq. simpl. rewrite !length_app. simpl. lia.
Qed.

(** Whenever [getChartData] answers, each of the four monthly series has
    six entries, whatever the clock, the zone and the blobs are. *)
Theorem getChartData_six_buckets (clock : Z → Z) (w w' : World) (chart : Chart) :
  getChartData clock w = (Ok chart, w') →
  length (labels (monthly chart)) = 6%nat
  ∧ length (monthly_sent (monthly chart)) = 6%nat
  ∧ length (monthly_pending (monthly chart)) = 6%nat
  ∧ length (monthly_received (monthly chart)) = 6%nat.
Proof.
  intros Hrun. apply getChartData_monthly in Hrun as (sentCards & receivedCards & Hrun).
  by apply forEachR_lengths in Hrun.
Qed.


Lemma dated_in_label key (r : record) :
  dated_in key r = true ↔
  ∃ v t, r !! "date" = Some v ∧ truthy (Some v) = true ∧ newDate v = Some t
         ∧ JsDate.monthKey tz (Some t) = key.
Proof.
  unfold dated_in. split.
  - destruct (r !! "date") as [v|]; [|done].
    destruct (truthy (Some v)) eqn:Htr; [|done]. cbn [andb].
    destruct (newDate v) as [t|] eqn:Ht; [|done].
    intros Hk%bool_decide_eq_true. by exists v, t.
  - intros (v & t & -> & -> & -> & <-). cbn [andb]. by apply bool_decide_eq_true.
Qed.

(** A record falls in one month. *)
Lemma dated_in_one_label key key' (r : record) :
  dated_in key r = true → dated_in key' r = true → key = key'.
Proof.
  rewrite !dated_in_label. intros (v & t & Hv & _ & Ht & <-) (v' & t' & Hv' & _ & Ht' & <-).
  by simplify_eq.
Qed.

Lemma count_cons {A} (p : A → bool) x l :
  count p (x :: l) = ((if p x then 1 else 0) + count p l)%nat.
Proof. unfold count. rewrite filter_cons. by destruct (p x). Qed.

Lemma one_label_at_most keys (r : record) :
  NoDup keys →
  (sum_list ((λ k, if dated_in k r then 1 else 0)%nat <$> keys) ≤ 1)%nat.
Proof.
  induction 1 as [|k keys Hk Hnd IH]; csimpl; [lia|].
  destruct (dated_in k r) eqn:Hd; [|lia].
  assert (sum_list ((λ k, if dated_in k r then 1 else 0)%nat <$> keys) = 0%nat) as ->;
    [|lia].
  clear IH Hnd. induction keys as [|k' keys IH]; csimpl; [done|].
  apply not_elem_of_cons in Hk as [Hne Hk]. rewrite (IH Hk).
  destruct (dated_in k' r) eqn:Hd'; [|done].
  destruct Hne. by apply (dated_in_one_label k k' r).
Qed.

Lemma counts_sum keys (recs : list record) :
  NoDup keys →
  (sum_list ((λ k, count (dated_in k) recs) <$> keys) ≤ length recs)%nat.
Proof.
  intros Hnd. induction recs as [|r recs IH].
  - clear Hnd. induction keys as [|k keys IHk]; csimpl; [done|].
    first [lia | unfold count in *; simpl in *; lia].
  - pose proof (one_label_at_most keys r Hnd) as Hone.
    assert (sum_list ((λ k, count (dated_in k) (r :: recs)) <$> keys)
            = (sum_list ((λ k, if dated_in k r then 1 else 0)%nat <$> keys)
               + sum_list ((λ k, count (dated_in k) recs) <$> keys))%nat) as ->;
      [|simpl; lia].
    clear. induction keys as [|k keys IHk]; csimpl; [done|].
    rewrite IHk, count_cons. lia.
Qed.

(** Over collections of records, each bucket of the monthly chart counts
    the records whose date parses to an instant of the month on its label,
    so a record with no date, or with one that does not parse, is in no
    bucket; and when the six labels are distinct no record is counted
    twice: the sent series adds up to at most the number of sent records,
    and the received series likewise. *)
Theorem getChartData_buckets (clock : Z → Z) (w : World)
    (sentRecs recvRecs : list record) :
  healthy w →
  holds w (cfg_sentCards CONFIG) sentRecs →
  holds w (cfg_receivedCards CONFIG) recvRecs →
  Forall mode_typed (sentRecs ++ recvRecs) →
  ∃ chart w',
    getChartData clock w = (Ok chart, w')
    ∧ (∀ i key, labels (monthly chart) !! i = Some key →
         monthly_sent (monthly chart) !! i = Some (count (dated_in key) sentRecs)
         ∧ monthly_received (monthly chart) !! i = Some (count (dated_in key) recvRecs))
    ∧ (∀ key r, dated_in key r = true →
         ∃ v t, r !! "date" = Some v ∧ truthy (Some v) = true
                ∧ newDate v = Some t ∧ JsDate.monthKey tz (Some t) = key)
    ∧ (NoDup (labels (monthly chart)) →
         (sum_list (monthly_sent (monthly chart)) ≤ length sentRecs)%nat
         ∧ (sum_list (monthly_received (monthly chart)) ≤ length recvRecs)%nat).
Proof.
  intros Hh Hs Hr Hmode. eexists _, _. split; [by apply getChartData_run|].
  cbn [monthly]. unfold monthly_of. cbn [labels monthly_sent monthly_received].
  set (label := λ i, pass_label (clock i) i). split_and!.
  - intros i key. rewrite !list_lookup_fmap.
    destruct ([5; 4; 3; 2; 1; 0] !! i) as [p|]; simpl; [|done].
    intros Hkey. by simplify_eq.
  - intros key r. by rewrite dated_in_label.
  - intros Hnd.
    change ((λ i, count (dated_in (pass_label (clock i) i)) sentRecs) <$> [5; 4; 3; 2; 1; 0])
      with ((λ i, count (dated_in (label i)) sentRecs) <$> [5; 4; 3; 2; 1; 0]).
    change ((λ i, count (dated_in (pass_label (clock i) i)) recvRecs) <$> [5; 4; 3; 2; 1; 0])
      with ((λ i, count (dated_in (label i)) recvRecs) <$> [5; 4; 3; 2; 1; 0]).
    rewrite (list_fmap_compose label (λ k, count (dated_in k) sentRecs)).
    rewrite (list_fmap_compose label (λ k, count (dated_in k) recvRecs)).
    split; by apply counts_sum.
Qed.

Lemma total_tally (modes : gmap string nat) (r : record) :
  total (tally modes r) = S (total modes).
Proof.
  unfold tally, total. set (k := mode_bucket r). clearbody k.
  assert (∀ (m : gmap string nat) (j1 j2 : string) (z1 z2 y : nat),
            j1 ≠ j2 → m !! j1 = Some z1 → m !! j2 = Some z2 →
            (z1 + (z2 + y) = z2 + (z1 + y))%nat) as Hcomm by (intros; lia).
  destruct (modes !! k) as [n|] eqn:Hk; simpl.
  - rewrite <- insert_delete_eq.
    rewrite map_fold_insert_L; [|by apply Hcomm|by rewrite lookup_delete_eq].
    rewrite (map_fold_delete_L _ _ k n modes); [lia|by apply Hcomm|done].
  - rewrite map_fold_insert_L; [done|by apply Hcomm|done].
Qed.

Lemma total_foldl_tally (modes : gmap string nat) (recs : list record) :
  total (foldl tally modes recs) = (total modes + length recs)%nat.
Proof.
  revert modes. induction recs as [|r recs IH]; intros modes; simpl; [lia|].
  rewrite IH, total_tally. lia.
Qed.

Lemma tally_keeps (modes : gmap string nat) (r : record) k n :
  modes !! k = Some n → ∃ n', tally modes r !! k = Some n' ∧ (n ≤ n')%nat.
Proof.
  intros Hk. unfold tally. destruct (decide (mode_bucket r = k)) as [->|Hne].
  - rewrite lookup_insert_eq, Hk. eexists. split; [done|]. simpl. lia.
  - rewrite lookup_insert_ne by done. eauto.
Qed.

Lemma foldl_tally_keeps (recs : list record) (modes : gmap string nat) k n :
  modes !! k = Some n → ∃ n', foldl tally modes recs !! k = Some n' ∧ (n ≤ n')%nat.
Proof.
  revert modes n. induction recs as [|r recs IH]; intros modes n Hk; simpl; [eauto|].
  destruct (tally_keeps modes r k n Hk) as (n1 & Hk1 & Hle).
  destruct (IH _ _ Hk1) as (n' & Hk' & Hle'). exists n'. split; [done|lia].
Qed.

(** The mode breakdown accounts for every record once: its counts add up to
    the number of records of both collections, a record whose mode is a
    non-empty string counts under the upper-cased mode and any other under
    "OTHER", and the bucket of every record holds at least one. *)
Theorem getChartData_modes_total (clock : Z → Z) (w : World)
    (sentRecs recvRecs : list record) :
  healthy w →
  holds w (cfg_sentCards CONFIG) sentRecs →
  holds w (cfg_receivedCards CONFIG) recvRecs →
  Forall mode_typed (sentRecs ++ recvRecs) →
  ∃ chart w',
    getChartData clock w = (Ok chart, w')
    ∧ total (modes chart) = (length sentRecs + length recvRecs)%nat
    ∧ (∀ r, r ∈ sentRecs ++ recvRecs →
         ∃ n, modes chart !! mode_bucket r = Some n ∧ (1 ≤ n)%nat)
    ∧ (∀ k, is_Some (modes chart !! k) →
         ∃ r, r ∈ sentRecs ++ recvRecs ∧ mode_bucket r = k).
Proof.
  intros Hh Hs Hr Hmode. eexists _, _. split; [by apply getChartData_run|].
  cbn [modes]. split_and!.
  - rewrite total_foldl_tally, length_app. unfold total. by rewrite map_fold_empty.
  - generalize (sentRecs ++ recvRecs) (∅ : gmap string nat). clear.
    intros recs. induction recs as [|r0 recs IH]; intros modes r Hin.
    + by apply elem_of_nil in Hin.
    + apply elem_of_cons in Hin as [->|Hin]; simpl; [|by apply IH].
      destruct (foldl_tally_keeps recs (tally modes r0) (mode_bucket r0)
                  (default 0%nat (modes !! mode_bucket r0) + 1)%nat)
        as (n & Hn & Hle); [unfold tally; by rewrite lookup_insert_eq|].
      exists n. split; [done|lia].
  - assert (∀ recs (modes : gmap string nat) k,
              is_Some (foldl tally modes recs !! k) →
              is_Some (modes !! k) ∨ ∃ r, r ∈ recs ∧ mode_bucket r = k) as Hfrom.
    { clear. intros recs. induction recs as [|r0 recs IH]; intros modes k Hk; simpl in Hk.
      - by left.
      - destruct (IH _ _ Hk) as [Hin|(r & Hr & Hb)].
        + unfold tally in Hin. destruct (decide (mode_bucket r0 = k)) as [<-|Hne].
          * right. exists r0. split; [by left|done].
          * rewrite lookup_insert_ne in Hin by done. by left.
        + right. exists r. split; [by right|done]. }
    intros k Hk. destruct (Hfrom _ _ _ Hk) as [Hin|Hfound]; [|done].
    rewrite lookup_empty in Hin. by destruct Hin.
Qed.


End Service.

(** ** The service on the sample data *)

Lemma ids_unique_one (r : record) : ids_unique [r].
Proof. intros [|i] [|j] r1 r2 Hi Hj _; simplify_eq/=; done. Qed.

(** C8.  On 31 March 2024 (noon UTC, zone UTC) the six passes of
    [getChartData] label their buckets 2023-10, 2023-12, 2023-12, 2024-01,
    2024-03, 2024-03: [setMonth] keeps the day of the month, and the 31st of
    a month with fewer days is a day of the month after.  November and
    February have no bucket, December and March have two. *)
Theorem getChartData_month_end_overflow :
  ∃ chart w',
    getChartData Json.parse JsDate.parseDateOnly 0 Sample.config
                 (λ _, Sample.end_of_march_2024) (Sample.world [] [])
      = (Ok chart, w')
    ∧ labels (monthly chart)
      = ["2023-10"; "2023-12"; "2023-12"; "2024-01"; "2024-03"; "2024-03"]
    ∧ ("2023-11" ∉ labels (monthly chart))
    ∧ ("2024-02" ∉ labels (monthly chart))
    ∧ ¬ NoDup (labels (monthly chart)).
Proof.
  eexists _, _. split; [vm_compute; reflexivity|]. cbn [monthly labels].
  split_and!; [done|..].
  - intros H. by repeat (apply elem_of_cons in H as [H|H]; [done|]); apply elem_of_nil in H.
  - intros H. by repeat (apply elem_of_cons in H as [H|H]; [done|]); apply elem_of_nil in H.
  - intros H. apply NoDup_cons in H as [_ H]. apply NoDup_cons in H as [H _].
    apply H. by left.
Qed.

(** The chart scenario, in the middle of February 2024 (zone UTC): one sent
    record in January, one in February, one received in February. *)
Lemma getChartData_february_scenario :
  ∃ chart w',
    getChartData Json.parse JsDate.parseDateOnly 0 Sample.config
                 (λ _, Sample.mid_february_2024)
                 (Sample.world Sample.chart_sent Sample.chart_received)
      = (Ok chart, w')
    ∧ labels (monthly chart)
      = ["2023-09"; "2023-10"; "2023-11"; "2023-12"; "2024-01"; "2024-02"]
    ∧ monthly_sent (monthly chart) = [0; 0; 0; 0; 1; 1]%nat
    ∧ monthly_received (monthly chart) = [0; 0; 0; 0; 0; 1]%nat.
Proof. eexists _, _. split; [vm_compute; reflexivity|]. done. Qed.


(** Counterexample to C10 as stated.  The payload's id is that of the stored
    entry, and the clock moves by a millisecond between the two readings:
    the stored [createdAt] is not the stored [updatedAt]. *)
Lemma saveCard_created_differs_from_updated :
  ∃ stored w',
    saveCard Json.parse Json.print Sample.config "generated-uuid" 1000 1001
             (JObj (Sample.card (Some "c1"))) true
             (Sample.world [Sample.kept_card] [])
      = (Ok (JObj stored), w')
    ∧ has_id (Sample.card (Some "c1") !! "id") Sample.kept_card = true
    ∧ stored !! "createdAt" = Some (JStr "1970-01-01T00:00:01.000Z")
    ∧ stored !! "updatedAt" = Some (JStr "1970-01-01T00:00:01.001Z")
    ∧ stored !! "createdAt" ≠ stored !! "updatedAt".
Proof.
  eexists _, _. split_and!; [vm_compute; reflexivity..|].
  vm_compute. intros H. discriminate H.
Qed.

(** *** The theorems at concrete inputs *)


Lemma writeToCos_guard_witness :
  writeToCos Json.print "data/sent.json" (JObj ∅) Sample.fresh
    = (Throw (QslError "写入的数据必须是数组" 1002 400), Sample.fresh)
  ∧ requests (writeToCos Json.print "data/sent.json" (JArr []) Sample.fresh).2
    = [PutObject "data/sent.json" (Json.print (JArr []))].
Proof.
  split.
  - apply (writeToCos_guard Json.print "data/sent.json" (JObj ∅) Sample.fresh).
    reflexivity.
  - apply (writeToCos_guard Json.print "data/sent.json" (JArr []) Sample.fresh).
    reflexivity.
Defined.

Lemma deleteCard_absent_id_witness :
  deleteCard Json.parse Json.print Sample.config (Some (JStr "")) true
             (Sample.world [Sample.kept_card] [])
    = (Throw (QslError "卡片ID不能为空" 2002 400), Sample.world [Sample.kept_card] [])
  ∧ ∃ message,
      deleteCard Json.parse Json.print Sample.config (Some (JStr "c2")) true
                 (Sample.world [Sample.kept_card] [])
        = (Throw (QslError message 2003 404),
           logged (GetObject "data/sent.json") (Sample.world [Sample.kept_card] [])).
Proof.
  split.
  - apply (deleteCard_absent_id Json.parse Json.print Sample.config (Some (JStr ""))
             true (Sample.world [Sample.kept_card] [])).
    reflexivity.
  - destruct (proj2 (deleteCard_absent_id Json.parse Json.print Sample.config
                       (Some (JStr "c2")) true (Sample.world [Sample.kept_card] []))
                    [Sample.kept_card])
      as (message & Hrun & _).
    + reflexivity.
    + reflexivity.
    + vm_compute. reflexivity.
    + repeat constructor.
    + by exists message.
Defined.


Lemma saveCard_replaces_entry_witness :
  ∃ stored w',
    saveCard Json.parse Json.print Sample.config "generated-uuid" 1000 1000
             (JObj (Sample.card (Some "c1"))) true (Sample.world [Sample.kept_card] [])
      = (Ok (JObj stored), w')
    ∧ Sample.kept_card !! "note" = Some (JStr "first contact")
    ∧ stored !! "note" = None
    ∧ stored !! "createdAt" = stored !! "updatedAt".
Proof.
  destruct (saveCard_replaces_entry Json.parse Json.print Sample.config
              "generated-uuid" 1000 1000 (Sample.card (Some "c1")) true
              (Sample.world [Sample.kept_card] []) [Sample.kept_card] 0%nat
              Sample.kept_card (JStr "c1"))
    as (w' & Hrun & _ & _ & _ & Hsame & _ & Hdrop).
  - vm_compute. reflexivity.
  - reflexivity.
  - vm_compute. reflexivity.
  - apply ids_unique_one.
  - vm_compute. reflexivity.
  - reflexivity.
  - vm_compute. reflexivity.
  - eexists _, w'. split_and!; [exact Hrun|vm_compute; reflexivity| |by apply Hsame].
    apply Hdrop; [done..|]. vm_compute. reflexivity.
Defined.




Lemma getChartData_pending_is_sent_witness :
  ∃ chart w',
    getChartData Json.parse JsDate.parseDateOnly 0 Sample.config
                 (λ _, Sample.mid_february_2024)
                 (Sample.world Sample.chart_sent Sample.chart_received)
      = (Ok chart, w')
    ∧ monthly_pending (monthly chart) = monthly_sent (monthly chart)
    ∧ length (monthly_pending (monthly chart)) = 6%nat.
Proof.
  destruct (proj2 (getChartData_pending_is_sent Json.parse JsDate.parseDateOnly 0
                     Sample.config (λ _, Sample.mid_february_2024)
                     (Sample.world Sample.chart_sent Sample.chart_received))
                  Sample.chart_sent Sample.chart_received)
    as (chart & w' & Hrun & Hsame & _ & Hlen).
  - reflexivity.
  - vm_compute. reflexivity.
  - vm_compute. reflexivity.
  - repeat constructor.
  - exists chart, w'. exact (conj Hrun (conj Hsame Hlen)).
Defined.
